(** * Fancy upsampling kernels of simd/arm/common/jdsample-neon.c

    A shallow embedding of [jsimd_h2v2_fancy_upsample_neon] and
    [jsimd_h1v2_fancy_upsample_neon].  Sample buffers are lists of integers,
    every access is bounds-checked (an access outside a buffer is undefined
    behaviour in C and is [None] here), 16-bit vector lanes and the
    [unsigned] loop counter wrap as on the machine, and the two loops of
    each kernel run on fuel that the entry points supply. *)

From Stdlib Require Import ZArith List Bool Lia.
Import ListNotations.
Open Scope Z_scope.

(** ** Failure: the option monad *)

Definition bind {A B : Type} (m : option A) (k : A -> option B) : option B :=
  match m with
  | Some a => k a
  | None => None
  end.

Notation "x <- m ;; k" := (bind m (fun x => k))
  (at level 61, m at next level, right associativity).
Notation "' p <- m ;; k" := (bind m (fun x => match x with p => k end))
  (at level 61, p pattern, m at next level, right associativity).

(** ** Machine integers *)

(** An 8-bit, 16-bit and 32-bit unsigned value of an integer. *)
Definition u8 (x : Z) : Z := x mod 256.
Definition u16 (x : Z) : Z := x mod 65536.
Definition u32 (x : Z) : Z := x mod 4294967296.

Definition is_u8 (x : Z) : bool := (0 <=? x) && (x <=? 255).

(** Modelled from the spec: the sample type and its accessor macro live in
    jmorecfg.h, which is not among the sources.  A sample is an unsigned
    8-bit channel value; [GETJSAMPLE] reads it as an [int] and the cast
    [(JSAMPLE)] keeps the low eight bits. *)
Definition GETJSAMPLE (value : Z) : Z := value.
Definition to_JSAMPLE (x : Z) : Z := u8 x.

(** ** Sample buffers *)

(** A [JSAMPROW] points at the first sample of a row buffer; the buffer is
    the list of its bytes, padding included. *)
Definition JSAMPROW := list Z.

Definition len {A : Type} (l : list A) : Z := Z.of_nat (length l).

(** [rd buf i] is the sample at index [i], for an index inside the buffer. *)
Definition rd (buf : JSAMPROW) (i : Z) : Z := nth (Z.to_nat i) buf 0.

(** [ptr[i]] as an rvalue. *)
Definition load (buf : JSAMPROW) (i : Z) : option Z :=
  if (0 <=? i) && (i <? len buf) then Some (rd buf i) else None.

(** Writing the bytes [bs] at offset [off]. *)
Definition store_bytes (buf : JSAMPROW) (off : Z) (bs : list Z)
  : option JSAMPROW :=
  if (0 <=? off) && (off + len bs <=? len buf)
  then Some (firstn (Z.to_nat off) buf ++ bs ++
             skipn (Z.to_nat off + length bs) buf)
  else None.

(** [ptr[i] = v]. *)
Definition store (buf : JSAMPROW) (i : Z) (v : Z) : option JSAMPROW :=
  store_bytes buf i [v].

(** A [JSAMPARRAY] points into a table of row pointers: [tbl_origin] is the
    position of element 0, so that [input_data[inrow - 1]] is meaningful
    when the caller supplies a context row in front. Distinct entries of a
    table, and the input and output tables, are distinct buffers. *)
Record JSAMPARRAY : Type := mkArray {
  tbl_rows : list JSAMPROW;
  tbl_origin : Z
}.

Definition row_get (a : JSAMPARRAY) (k : Z) : option JSAMPROW :=
  let p := tbl_origin a + k in
  if 0 <=? p then nth_error (tbl_rows a) (Z.to_nat p) else None.

Fixpoint update {A : Type} (l : list A) (n : nat) (x : A) : list A :=
  match l, n with
  | [], _ => []
  | _ :: t, O => x :: t
  | h :: t, S n' => h :: update t n' x
  end.

(** Storing the final contents of the row that [a[k]] points at. *)
Definition row_set (a : JSAMPARRAY) (k : Z) (r : JSAMPROW) : JSAMPARRAY :=
  mkArray (update (tbl_rows a) (Z.to_nat (tbl_origin a + k)) r)
          (tbl_origin a).

(** ** The NEON intrinsics used by the kernels

    arm_neon.h is a system header; each intrinsic is given its
    architectural meaning, lane by lane.  A vector is the list of its
    lanes, lane 0 first. *)

Module Neon.

Fixpoint map2 {A B C : Type} (f : A -> B -> C) (a : list A) (b : list B)
  : list C :=
  match a, b with
  | x :: a', y :: b' => f x y :: map2 f a' b'
  | _, _ => []
  end.

Fixpoint map3 {A B C D : Type} (f : A -> B -> C -> D)
  (a : list A) (b : list B) (c : list C) : list D :=
  match a, b, c with
  | x :: a', y :: b', z :: c' => f x y z :: map3 f a' b' c'
  | _, _, _ => []
  end.

(** One lane of a multiply-accumulate into a 16-bit lane. *)
Definition mla_lane (a b c : Z) : Z := u16 (a + b * c).
(** One lane of a 16-bit addition. *)
Definition add_lane (a b : Z) : Z := u16 (a + b).
(** One lane of shift right and narrow: the low 8 bits of [a >> n]. *)
Definition shrn_lane (n a : Z) : Z := u8 (Z.shiftr a n).
(** One lane of rounding shift right and narrow: [2^(n-1)] is added at
    full precision before the shift. *)
Definition rshrn_lane (n a : Z) : Z :=
  u8 (Z.shiftr (a + Z.shiftl 1 (n - 1)) n).

Definition vdup_n_u8 (x : Z) : list Z := repeat x 8.
Definition vdupq_n_u16 (x : Z) : list Z := repeat x 8.

Definition vget_low_u8 (v : list Z) : list Z := firstn 8 v.
Definition vget_high_u8 (v : list Z) : list Z := skipn 8 v.
Definition vcombine_u8 (lo hi : list Z) : list Z := lo ++ hi.

(** Zero extension keeps the value of every lane. *)
Definition vmovl_u8 (v : list Z) : list Z := v.

Definition vmlal_u8 (a b c : list Z) : list Z := map3 mla_lane a b c.
Definition vmlaq_u16 (a b c : list Z) : list Z := map3 mla_lane a b c.
Definition vaddq_u16 (a b : list Z) : list Z := map2 add_lane a b.
Definition vshrn_n_u16 (a : list Z) (n : Z) : list Z := map (shrn_lane n) a.
Definition vrshrn_n_u16 (a : list Z) (n : Z) : list Z :=
  map (rshrn_lane n) a.

(** Sixteen consecutive bytes starting at [buf + off]. *)
Definition vld1q_u8 (buf : JSAMPROW) (off : Z) : option (list Z) :=
  if (0 <=? off) && (off + 16 <=? len buf)
  then Some (firstn 16 (skipn (Z.to_nat off) buf))
  else None.

Definition vst1q_u8 (buf : JSAMPROW) (off : Z) (v : list Z)
  : option JSAMPROW :=
  store_bytes buf off v.

Fixpoint interleave (a b : list Z) : list Z :=
  match a, b with
  | x :: a', y :: b' => x :: y :: interleave a' b'
  | _, _ => []
  end.

(** Two-way interleaving store: lane [k] of [val[0]] goes to byte [2k],
    lane [k] of [val[1]] to byte [2k+1]. *)
Definition vst2q_u8 (buf : JSAMPROW) (off : Z) (v : list Z * list Z)
  : option JSAMPROW :=
  store_bytes buf off (interleave (fst v) (snd v)).

End Neon.
Import Neon.

(** ** jsimd_h2v2_fancy_upsample_neon *)

Definition seven_u16 : list Z := vdupq_n_u16 7.
Definition three_u8 : list Z := vdup_n_u8 3.
Definition three_u16 : list Z := vdupq_n_u16 3.
Definition one_u16 : list Z := vdupq_n_u16 1.

(** Steps 1 and 2 of the general case and the narrowing, from the six
    loaded vectors to the two pairs of vectors handed to [vst2q_u8]; the
    source has this text twice, before and inside the column loop. *)
Definition h2v2_blend (s0r0 s0r1 s0r2 s1r0 s1r1 s1r2 : list Z)
  : (list Z * list Z) * (list Z * list Z) :=
  let s0colsum0_l :=
    vmlal_u8 (vmovl_u8 (vget_low_u8 s0r0)) (vget_low_u8 s0r1) three_u8 in
  let s0colsum0_h :=
    vmlal_u8 (vmovl_u8 (vget_high_u8 s0r0)) (vget_high_u8 s0r1) three_u8 in
  let s0colsum1_l :=
    vmlal_u8 (vmovl_u8 (vget_low_u8 s0r2)) (vget_low_u8 s0r1) three_u8 in
  let s0colsum1_h :=
    vmlal_u8 (vmovl_u8 (vget_high_u8 s0r2)) (vget_high_u8 s0r1) three_u8 in
  let s1colsum0_l :=
    vmlal_u8 (vmovl_u8 (vget_low_u8 s1r0)) (vget_low_u8 s1r1) three_u8 in
  let s1colsum0_h :=
    vmlal_u8 (vmovl_u8 (vget_high_u8 s1r0)) (vget_high_u8 s1r1) three_u8 in
  let s1colsum1_l :=
    vmlal_u8 (vmovl_u8 (vget_low_u8 s1r2)) (vget_low_u8 s1r1) three_u8 in
  let s1colsum1_h :=
    vmlal_u8 (vmovl_u8 (vget_high_u8 s1r2)) (vget_high_u8 s1r1) three_u8 in
  let output0_p1_l := vmlaq_u16 s1colsum0_l s0colsum0_l three_u16 in
  let output0_p1_h := vmlaq_u16 s1colsum0_h s0colsum0_h three_u16 in
  let output0_p2_l := vmlaq_u16 s0colsum0_l s1colsum0_l three_u16 in
  let output0_p2_h := vmlaq_u16 s0colsum0_h s1colsum0_h three_u16 in
  let output1_p1_l := vmlaq_u16 s1colsum1_l s0colsum1_l three_u16 in
  let output1_p1_h := vmlaq_u16 s1colsum1_h s0colsum1_h three_u16 in
  let output1_p2_l := vmlaq_u16 s0colsum1_l s1colsum1_l three_u16 in
  let output1_p2_h := vmlaq_u16 s0colsum1_h s1colsum1_h three_u16 in
  let output0_p1_l := vaddq_u16 output0_p1_l seven_u16 in
  let output0_p1_h := vaddq_u16 output0_p1_h seven_u16 in
  let output1_p1_l := vaddq_u16 output1_p1_l seven_u16 in
  let output1_p1_h := vaddq_u16 output1_p1_h seven_u16 in
  let output_pixels0 :=
    (vcombine_u8 (vshrn_n_u16 output0_p1_l 4) (vshrn_n_u16 output0_p1_h 4),
     vcombine_u8 (vrshrn_n_u16 output0_p2_l 4) (vrshrn_n_u16 output0_p2_h 4))
  in
  let output_pixels1 :=
    (vcombine_u8 (vshrn_n_u16 output1_p1_l 4) (vshrn_n_u16 output1_p1_h 4),
     vcombine_u8 (vrshrn_n_u16 output1_p2_l 4) (vrshrn_n_u16 output1_p2_h 4))
  in
  (output_pixels0, output_pixels1).

(** One block of sixteen columns: the s0 vectors are loaded at [off_s0],
    the s1 vectors at [off_s1], and 32 bytes are stored in each output row
    at [off_out]. *)
Definition h2v2_block (off_s0 off_s1 off_out : Z)
  (inptr0 inptr1 inptr2 outptr0 outptr1 : JSAMPROW)
  : option (JSAMPROW * JSAMPROW) :=
  s0r0 <- vld1q_u8 inptr0 off_s0 ;;
  s0r1 <- vld1q_u8 inptr1 off_s0 ;;
  s0r2 <- vld1q_u8 inptr2 off_s0 ;;
  s1r0 <- vld1q_u8 inptr0 off_s1 ;;
  s1r1 <- vld1q_u8 inptr1 off_s1 ;;
  s1r2 <- vld1q_u8 inptr2 off_s1 ;;
  let '(output_pixels0, output_pixels1) :=
    h2v2_blend s0r0 s0r1 s0r2 s1r0 s1r1 s1r2 in
  outptr0 <- vst2q_u8 outptr0 off_out output_pixels0 ;;
  outptr1 <- vst2q_u8 outptr1 off_out output_pixels1 ;;
  Some (outptr0, outptr1).

(** [for (unsigned colctr = 16; colctr < downsampled_width; colctr += 16)] *)
Fixpoint h2v2_cols (fuel : nat) (colctr downsampled_width : Z)
  (inptr0 inptr1 inptr2 outptr0 outptr1 : JSAMPROW)
  : option (JSAMPROW * JSAMPROW) :=
  if colctr <? downsampled_width then
    match fuel with
    | O => None
    | S fuel' =>
        '(outptr0, outptr1) <-
          h2v2_block (colctr - 1) colctr (u32 (2 * colctr) - 1)
                     inptr0 inptr1 inptr2 outptr0 outptr1 ;;
        h2v2_cols fuel' (u32 (colctr + 16)) downsampled_width
                  inptr0 inptr1 inptr2 outptr0 outptr1
    end
  else Some (outptr0, outptr1).

(** The body of the row loop, from the first-pixel case to the last-pixel
    case. *)
Definition h2v2_row (downsampled_width : Z)
  (inptr0 inptr1 inptr2 outptr0 outptr1 : JSAMPROW)
  : option (JSAMPROW * JSAMPROW) :=
  (* Case 1: first pixel channel value in this row of original image. *)
  a1 <- load inptr1 0 ;;
  a0 <- load inptr0 0 ;;
  let s0colsum0 := GETJSAMPLE a1 * 3 + GETJSAMPLE a0 in
  outptr0 <- store outptr0 0 (to_JSAMPLE (Z.shiftr (s0colsum0 * 4 + 8) 4)) ;;
  a2 <- load inptr2 0 ;;
  let s0colsum1 := GETJSAMPLE a1 * 3 + GETJSAMPLE a2 in
  outptr1 <- store outptr1 0 (to_JSAMPLE (Z.shiftr (s0colsum1 * 4 + 8) 4)) ;;
  (* General case, first sixteen columns. *)
  '(outptr0, outptr1) <-
    h2v2_block 0 1 1 inptr0 inptr1 inptr2 outptr0 outptr1 ;;
  '(outptr0, outptr1) <-
    h2v2_cols (Z.to_nat downsampled_width) 16 downsampled_width
              inptr0 inptr1 inptr2 outptr0 outptr1 ;;
  (* Case 2: last pixel channel value in this row of the original image. *)
  b1 <- load inptr1 (u32 (downsampled_width - 1)) ;;
  b0 <- load inptr0 (u32 (downsampled_width - 1)) ;;
  let s1colsum0 := GETJSAMPLE b1 * 3 + GETJSAMPLE b0 in
  outptr0 <- store outptr0 (u32 (2 * downsampled_width - 1))
                   (to_JSAMPLE (Z.shiftr (s1colsum0 * 4 + 7) 4)) ;;
  b2 <- load inptr2 (u32 (downsampled_width - 1)) ;;
  let s1colsum1 := GETJSAMPLE b1 * 3 + GETJSAMPLE b2 in
  outptr1 <- store outptr1 (u32 (2 * downsampled_width - 1))
                   (to_JSAMPLE (Z.shiftr (s1colsum1 * 4 + 7) 4)) ;;
  Some (outptr0, outptr1).

(** [while (outrow < max_v_samp_factor)], generic in the row body. *)
Fixpoint row_loop
  (body : JSAMPROW -> JSAMPROW -> JSAMPROW -> JSAMPROW -> JSAMPROW ->
          option (JSAMPROW * JSAMPROW))
  (fuel : nat) (inrow outrow max_v_samp_factor : Z)
  (input_data output_data : JSAMPARRAY) : option JSAMPARRAY :=
  if outrow <? max_v_samp_factor then
    match fuel with
    | O => None
    | S fuel' =>
        inptr0 <- row_get input_data (inrow - 1) ;;
        inptr1 <- row_get input_data inrow ;;
        inptr2 <- row_get input_data (inrow + 1) ;;
        outptr0 <- row_get output_data outrow ;;
        outptr1 <- row_get output_data (outrow + 1) ;;
        '(outptr0, outptr1) <- body inptr0 inptr1 inptr2 outptr0 outptr1 ;;
        row_loop body fuel' (inrow + 1) (outrow + 2) max_v_samp_factor
                 input_data
                 (row_set (row_set output_data outrow outptr0)
                          (outrow + 1) outptr1)
    end
  else Some output_data.

Definition jsimd_h2v2_fancy_upsample_neon (max_v_samp_factor : Z)
  (downsampled_width : Z) (input_data output_data : JSAMPARRAY)
  : option JSAMPARRAY :=
  row_loop (h2v2_row downsampled_width) (Z.to_nat max_v_samp_factor)
           0 0 max_v_samp_factor input_data output_data.

(** ** jsimd_h1v2_fancy_upsample_neon *)

(** The body of the column loop between the loads and the stores. *)
Definition h1v2_blend (r0 r1 r2 : list Z) : list Z * list Z :=
  let colsum0_l :=
    vmlal_u8 (vmovl_u8 (vget_low_u8 r0)) (vget_low_u8 r1) three_u8 in
  let colsum0_h :=
    vmlal_u8 (vmovl_u8 (vget_high_u8 r0)) (vget_high_u8 r1) three_u8 in
  let colsum1_l :=
    vmlal_u8 (vmovl_u8 (vget_low_u8 r2)) (vget_low_u8 r1) three_u8 in
  let colsum1_h :=
    vmlal_u8 (vmovl_u8 (vget_high_u8 r2)) (vget_high_u8 r1) three_u8 in
  let colsum0_l := vaddq_u16 colsum0_l one_u16 in
  let colsum0_h := vaddq_u16 colsum0_h one_u16 in
  let output_pixels0 :=
    vcombine_u8 (vshrn_n_u16 colsum0_l 2) (vshrn_n_u16 colsum0_h 2) in
  let output_pixels1 :=
    vcombine_u8 (vrshrn_n_u16 colsum1_l 2) (vrshrn_n_u16 colsum1_h 2) in
  (output_pixels0, output_pixels1).

(** [for (unsigned colctr = 0; colctr < downsampled_width; colctr += 16)] *)
Fixpoint h1v2_cols (fuel : nat) (colctr downsampled_width : Z)
  (inptr0 inptr1 inptr2 outptr0 outptr1 : JSAMPROW)
  : option (JSAMPROW * JSAMPROW) :=
  if colctr <? downsampled_width then
    match fuel with
    | O => None
    | S fuel' =>
        r0 <- vld1q_u8 inptr0 colctr ;;
        r1 <- vld1q_u8 inptr1 colctr ;;
        r2 <- vld1q_u8 inptr2 colctr ;;
        let '(output_pixels0, output_pixels1) := h1v2_blend r0 r1 r2 in
        outptr0 <- vst1q_u8 outptr0 colctr output_pixels0 ;;
        outptr1 <- vst1q_u8 outptr1 colctr output_pixels1 ;;
        h1v2_cols fuel' (u32 (colctr + 16)) downsampled_width
                  inptr0 inptr1 inptr2 outptr0 outptr1
    end
  else Some (outptr0, outptr1).

Definition h1v2_row (downsampled_width : Z)
  (inptr0 inptr1 inptr2 outptr0 outptr1 : JSAMPROW)
  : option (JSAMPROW * JSAMPROW) :=
  h1v2_cols (Z.to_nat downsampled_width) 0 downsampled_width
            inptr0 inptr1 inptr2 outptr0 outptr1.

Definition jsimd_h1v2_fancy_upsample_neon (max_v_samp_factor : Z)
  (downsampled_width : Z) (input_data output_data : JSAMPARRAY)
  : option JSAMPARRAY :=
  row_loop (h1v2_row downsampled_width) (Z.to_nat max_v_samp_factor)
           0 0 max_v_samp_factor input_data output_data.

(** ** A fixture: the known vector of the specification *)

Definition pad (n : nat) (l : list Z) : list Z := l ++ repeat 0 (n - length l).

Definition ex_input : JSAMPARRAY :=
  mkArray [pad 32 [10; 20; 30]; pad 32 [40; 50; 60]; pad 32 [70; 80; 90]] 1.

Definition ex_output : JSAMPARRAY := mkArray [repeat 0 64%nat; repeat 0 64%nat] 0.

(** * Specification-level definitions *)

(** ** Lanes and what a vector block writes *)

(** Consecutive integers [lo, lo+1, ..., lo+n-1]. *)
Definition zrange (lo : Z) (n : nat) : list Z :=
  map (fun k => lo + Z.of_nat k) (seq 0 n).

Definition lanes16 : list Z := zrange 0 16.

(** The 16-bit column sum of column [c], as the widening multiply-accumulate
    leaves it in a lane. *)
Definition colsum16 (far near : JSAMPROW) (c : Z) : Z :=
  mla_lane (rd far c) (rd near c) 3.

(** The lanes of [val[0]] and [val[1]] that belong to the boundary between
    columns [c - 1] (s0) and [c] (s1). *)
Definition vec_p1 (far near : JSAMPROW) (c : Z) : Z :=
  shrn_lane 4
    (add_lane (mla_lane (colsum16 far near c) (colsum16 far near (c - 1)) 3)
              7).

Definition vec_p2 (far near : JSAMPROW) (c : Z) : Z :=
  rshrn_lane 4
    (mla_lane (colsum16 far near (c - 1)) (colsum16 far near c) 3).

(** The byte a vector block leaves at output index [j >= 1]. *)
Definition vec_pixel (far near : JSAMPROW) (j : Z) : Z :=
  let c := (j + 1) / 2 in
  if Z.odd j then vec_p1 far near c else vec_p2 far near c.

(** ** The scalar formulas the kernels realise *)

(** The 3:1 vertical blend of column [c]: [near] is the row being
    upsampled, [far] the neighbouring row above or below. *)
Definition colsum (far near : JSAMPROW) (c : Z) : Z :=
  3 * rd near c + rd far c.

Definition h2v2_first (far near : JSAMPROW) : Z :=
  Z.shiftr (colsum far near 0 * 4 + 8) 4.

Definition h2v2_last (w : Z) (far near : JSAMPROW) : Z :=
  Z.shiftr (colsum far near (w - 1) * 4 + 7) 4.

(** Output index [2c - 1]: three parts of column [c - 1], one of column
    [c], bias 7. *)
Definition h2v2_odd (far near : JSAMPROW) (c : Z) : Z :=
  Z.shiftr (3 * colsum far near (c - 1) + colsum far near c + 7) 4.

(** Output index [2c]: three parts of column [c], one of column [c - 1],
    bias 8. *)
Definition h2v2_even (far near : JSAMPROW) (c : Z) : Z :=
  Z.shiftr (3 * colsum far near c + colsum far near (c - 1) + 8) 4.

Definition h2v2_scalar_pixel (w : Z) (far near : JSAMPROW) (j : Z) : Z :=
  if j =? 0 then h2v2_first far near
  else if j =? 2 * w - 1 then h2v2_last w far near
  else if Z.odd j then h2v2_odd far near ((j + 1) / 2)
  else h2v2_even far near (j / 2).

Definition h1v2_top (above cur : JSAMPROW) (c : Z) : Z :=
  Z.shiftr (colsum above cur c + 1) 2.

Definition h1v2_bottom (below cur : JSAMPROW) (c : Z) : Z :=
  Z.shiftr (colsum below cur c + 2) 2.

(** ** Buffer capacities the caller guarantees *)

Definition round_up16 (w : Z) : Z := 16 * ((w + 15) / 16).

Definition good_in_h2v2 (w : Z) (r : JSAMPROW) : bool :=
  (17 <=? len r) && (round_up16 w <=? len r) && forallb is_u8 r.

Definition good_out_h2v2 (w : Z) (o : JSAMPROW) : bool :=
  (33 <=? len o) && (2 * round_up16 w <=? len o).

Definition good_in_h1v2 (w : Z) (r : JSAMPROW) : bool :=
  (round_up16 w <=? len r) && forallb is_u8 r.

Definition good_out_h1v2 (w : Z) (o : JSAMPROW) : bool :=
  round_up16 w <=? len o.

(** ** Loop invariants *)

(** [o'] is [o] with the block values written over the indices from [lo]
    up to (excluding) [hi]; nothing below [lo] changes. *)
Definition written (far near : JSAMPROW) (lo hi : Z) (o o' : JSAMPROW)
  : Prop :=
  len o' = len o /\
  forall j, 0 <= j ->
    (j < lo -> rd o' j = rd o j) /\
    (lo <= j < hi -> rd o' j = vec_pixel far near j).

(** The lanes the h1v2 column loop stores at column [c]. *)
Definition vec_top (above cur : JSAMPROW) (c : Z) : Z :=
  shrn_lane 2 (add_lane (colsum16 above cur c) 1).

Definition vec_bottom (below cur : JSAMPROW) (c : Z) : Z :=
  rshrn_lane 2 (colsum16 below cur c).

Definition row_ok (good : JSAMPROW -> bool) (a : JSAMPARRAY) (k : Z)
  : bool :=
  match row_get a k with
  | Some r => good r
  | None => false
  end.

(** Iteration [i] read the input rows [i-1], [i], [i+1], ran the body on
    the output rows [2i] and [2i+1] of [cur], and its results are the rows
    [2i] and [2i+1] of [out']. *)
Definition iter_post
  (body : JSAMPROW -> JSAMPROW -> JSAMPROW -> JSAMPROW -> JSAMPROW ->
          option (JSAMPROW * JSAMPROW))
  (good_in good_out : JSAMPROW -> bool)
  (input cur out' : JSAMPARRAY) (i : Z) : Prop :=
  exists in0 in1 in2 o0 o1 t b,
    row_get input (i - 1) = Some in0 /\ row_get input i = Some in1 /\
    row_get input (i + 1) = Some in2 /\
    row_get cur (2 * i) = Some o0 /\ row_get cur (2 * i + 1) = Some o1 /\
    good_in in0 = true /\ good_in in1 = true /\ good_in in2 = true /\
    good_out o0 = true /\ good_out o1 = true /\
    body in0 in1 in2 o0 o1 = Some (t, b) /\
    row_get out' (2 * i) = Some t /\ row_get out' (2 * i + 1) = Some b.

(** ** Valid calls and what they produce *)

Definition rows_ok (good : JSAMPROW -> bool) (a : JSAMPARRAY)
  (lo : Z) (n : nat) : bool :=
  forallb (row_ok good a) (zrange lo n).

(** The contract of the h2v2 kernel: an even row-group size of at least 2,
    a width of at least 1 whose double fits the [unsigned] index
    arithmetic, context rows [-1 .. max_v_samp_factor/2] of padded 8-bit
    samples and [max_v_samp_factor] padded output rows. *)
Definition valid_h2v2 (max_v_samp_factor downsampled_width : Z)
  (input_data output_data : JSAMPARRAY) : bool :=
  (2 <=? max_v_samp_factor) && Z.even max_v_samp_factor &&
  (1 <=? downsampled_width) && (downsampled_width <? 2147483648) &&
  rows_ok (good_in_h2v2 downsampled_width) input_data (-1)
          (Z.to_nat (max_v_samp_factor / 2 + 2)) &&
  rows_ok (good_out_h2v2 downsampled_width) output_data 0
          (Z.to_nat max_v_samp_factor).

Definition valid_h1v2 (max_v_samp_factor downsampled_width : Z)
  (input_data output_data : JSAMPARRAY) : bool :=
  (2 <=? max_v_samp_factor) && Z.even max_v_samp_factor &&
  (1 <=? downsampled_width) && (downsampled_width <=? 4294967280) &&
  rows_ok (good_in_h1v2 downsampled_width) input_data (-1)
          (Z.to_nat (max_v_samp_factor / 2 + 2)) &&
  rows_ok (good_out_h1v2 downsampled_width) output_data 0
          (Z.to_nat max_v_samp_factor).

(** The call returned, and for input row [i] the context rows [above],
    [cur], [below] and the produced rows [top] (output row [2i]) and [bot]
    (output row [2i+1]) satisfy [P]. *)
Definition row_pair (result : option JSAMPARRAY) (input_data : JSAMPARRAY)
  (i : Z)
  (P : JSAMPROW -> JSAMPROW -> JSAMPROW -> JSAMPROW -> JSAMPROW -> Prop)
  : Prop :=
  exists out' above cur below top bot,
    result = Some out' /\
    row_get input_data (i - 1) = Some above /\
    row_get input_data i = Some cur /\
    row_get input_data (i + 1) = Some below /\
    row_get out' (2 * i) = Some top /\
    row_get out' (2 * i + 1) = Some bot /\
    P above cur below top bot.

Definition h2v2_post (w : Z) (above cur below top bot : JSAMPROW) : Prop :=
  good_in_h2v2 w above = true /\ good_in_h2v2 w cur = true /\
  good_in_h2v2 w below = true /\
  2 * w <= len top /\ 2 * w <= len bot /\
  forall j, 0 <= j < 2 * w ->
    rd top j = h2v2_scalar_pixel w above cur j /\
    rd bot j = h2v2_scalar_pixel w below cur j.

Definition h1v2_post (w : Z) (above cur below top bot : JSAMPROW) : Prop :=
  good_in_h1v2 w above = true /\ good_in_h1v2 w cur = true /\
  good_in_h1v2 w below = true /\
  w <= len top /\ w <= len bot /\
  forall c, 0 <= c < w ->
    rd top c = h1v2_top above cur c /\
    rd bot c = h1v2_bottom below cur c.

(** ** Statements under test *)

(** The interior formulas as the specification words them: at output index
    [2c-1] three parts of [s1colsum] (column [c]) and one of [s0colsum]
    (column [c-1]), and the converse at index [2c]. *)
Definition h2v2_interior_as_stated (max w : Z)
  (input output : JSAMPARRAY) (i c : Z) : Prop :=
  row_pair (jsimd_h2v2_fancy_upsample_neon max w input output) input i
    (fun above cur below top bot =>
       let s0colsum0 := 3 * rd cur (c - 1) + rd above (c - 1) in
       let s1colsum0 := 3 * rd cur c + rd above c in
       let s0colsum1 := 3 * rd cur (c - 1) + rd below (c - 1) in
       let s1colsum1 := 3 * rd cur c + rd below c in
       load top (2 * c - 1)
       = Some (Z.shiftr (3 * s1colsum0 + s0colsum0 + 7) 4) /\
       load top (2 * c)
       = Some (Z.shiftr (3 * s0colsum0 + s1colsum0 + 8) 4) /\
       load bot (2 * c - 1)
       = Some (Z.shiftr (3 * s1colsum1 + s0colsum1 + 7) 4) /\
       load bot (2 * c)
       = Some (Z.shiftr (3 * s0colsum1 + s1colsum1 + 8) 4)).

Definition flat_row (w v : Z) (r : JSAMPROW) : bool :=
  forallb (fun c => rd r c =? v) (zrange 0 (Z.to_nat w)).

(** The samples of the logical width of the three context rows of input
    row [i] all equal [v]. *)
Definition flat_window (w v : Z) (input : JSAMPARRAY) (i : Z) : bool :=
  row_ok (flat_row w v) input (i - 1) && row_ok (flat_row w v) input i &&
  row_ok (flat_row w v) input (i + 1).

Definition ex_flat_input : JSAMPARRAY :=
  mkArray [pad 32 [200; 200; 200]; pad 32 [200; 200; 200];
           pad 32 [200; 200; 200]] 1.

(** ** Scalar reference implementations *)

(** The reference, column by column, with the formulas the kernel
    realises. *)
Definition h2v2_scalar_row (w : Z) (far near : JSAMPROW) : list Z :=
  map (h2v2_scalar_pixel w far near) (zrange 0 (Z.to_nat (2 * w))).

(** The scalar reference written from the words of sections 4.1 and 4.2 of
    the specification. *)
Module SpecScalar.

Definition h2v2_pixel (w : Z) (far near : JSAMPROW) (j : Z) : Z :=
  if j =? 0 then Z.shiftr ((3 * rd near 0 + rd far 0) * 4 + 8) 4
  else if j =? 2 * w - 1
  then Z.shiftr ((3 * rd near (w - 1) + rd far (w - 1)) * 4 + 7) 4
  else
    let c := (j + 1) / 2 in
    let s0colsum := 3 * rd near (c - 1) + rd far (c - 1) in
    let s1colsum := 3 * rd near c + rd far c in
    if Z.odd j
    then Z.shiftr (3 * s1colsum + s0colsum + 7) 4
    else Z.shiftr (3 * s0colsum + s1colsum + 8) 4.

Definition h2v2_row (w : Z) (far near : JSAMPROW) : list Z :=
  map (h2v2_pixel w far near) (zrange 0 (Z.to_nat (2 * w))).

Definition h1v2_top_row (w : Z) (above cur : JSAMPROW) : list Z :=
  map (fun c => Z.shiftr (3 * rd cur c + rd above c + 1) 2)
      (zrange 0 (Z.to_nat w)).

Definition h1v2_bottom_row (w : Z) (below cur : JSAMPROW) : list Z :=
  map (fun c => Z.shiftr (3 * rd cur c + rd below c + 2) 2)
      (zrange 0 (Z.to_nat w)).

End SpecScalar.

(** The logical prefixes of the rows produced for input row [i] by the
    h2v2 kernel and for input row [i'] by the h1v2 kernel are the rows of
    the scalar reference, the h2v2 reference being [h2v2_ref]. *)
Definition matches_scalar
  (h2v2_ref : Z -> JSAMPROW -> JSAMPROW -> list Z)
  (max w : Z) (input output : JSAMPARRAY) (i : Z)
  (max' w' : Z) (input' output' : JSAMPARRAY) (i' : Z) : Prop :=
  row_pair (jsimd_h2v2_fancy_upsample_neon max w input output) input i
    (fun above cur below top bot =>
       firstn (Z.to_nat (2 * w)) top = h2v2_ref w above cur /\
       firstn (Z.to_nat (2 * w)) bot = h2v2_ref w below cur) /\
  row_pair (jsimd_h1v2_fancy_upsample_neon max' w' input' output') input' i'
    (fun above cur below top bot =>
       firstn (Z.to_nat w') top = SpecScalar.h1v2_top_row w' above cur /\
       firstn (Z.to_nat w') bot = SpecScalar.h1v2_bottom_row w' below cur).

(** ** The 16-bit stage of the vector blends *)

(** The 16-bit vectors of one h2v2 block, under the names of the source:
    the eight column sums, the four 3:1 blends that receive the bias, the
    same after the bias, and the four blends that are shifted with
    rounding. *)
Record h2v2_sum_vectors : Type := mkSums {
  colsums : list (list Z);
  blends_p1 : list (list Z);
  outputs_p1 : list (list Z);
  outputs_p2 : list (list Z)
}.

(** Steps 1 and 2 of [h2v2_blend] up to the shifts, with the widening
    multiply-accumulate [mlal], the 16-bit multiply-accumulate [mla] and
    the 16-bit addition [add] as parameters: the kernel runs it with
    [vmlal_u8], [vmlaq_u16] and [vaddq_u16]. *)
Definition h2v2_sums
  (mlal mla : list Z -> list Z -> list Z -> list Z)
  (add : list Z -> list Z -> list Z)
  (s0r0 s0r1 s0r2 s1r0 s1r1 s1r2 : list Z) : h2v2_sum_vectors :=
  let s0colsum0_l :=
    mlal (vmovl_u8 (vget_low_u8 s0r0)) (vget_low_u8 s0r1) three_u8 in
  let s0colsum0_h :=
    mlal (vmovl_u8 (vget_high_u8 s0r0)) (vget_high_u8 s0r1) three_u8 in
  let s0colsum1_l :=
    mlal (vmovl_u8 (vget_low_u8 s0r2)) (vget_low_u8 s0r1) three_u8 in
  let s0colsum1_h :=
    mlal (vmovl_u8 (vget_high_u8 s0r2)) (vget_high_u8 s0r1) three_u8 in
  let s1colsum0_l :=
    mlal (vmovl_u8 (vget_low_u8 s1r0)) (vget_low_u8 s1r1) three_u8 in
  let s1colsum0_h :=
    mlal (vmovl_u8 (vget_high_u8 s1r0)) (vget_high_u8 s1r1) three_u8 in
  let s1colsum1_l :=
    mlal (vmovl_u8 (vget_low_u8 s1r2)) (vget_low_u8 s1r1) three_u8 in
  let s1colsum1_h :=
    mlal (vmovl_u8 (vget_high_u8 s1r2)) (vget_high_u8 s1r1) three_u8 in
  let output0_p1_l := mla s1colsum0_l s0colsum0_l three_u16 in
  let output0_p1_h := mla s1colsum0_h s0colsum0_h three_u16 in
  let output0_p2_l := mla s0colsum0_l s1colsum0_l three_u16 in
  let output0_p2_h := mla s0colsum0_h s1colsum0_h three_u16 in
  let output1_p1_l := mla s1colsum1_l s0colsum1_l three_u16 in
  let output1_p1_h := mla s1colsum1_h s0colsum1_h three_u16 in
  let output1_p2_l := mla s0colsum1_l s1colsum1_l three_u16 in
  let output1_p2_h := mla s0colsum1_h s1colsum1_h three_u16 in
  mkSums
    [s0colsum0_l; s0colsum0_h; s0colsum1_l; s0colsum1_h;
     s1colsum0_l; s1colsum0_h; s1colsum1_l; s1colsum1_h]
    [output0_p1_l; output0_p1_h; output1_p1_l; output1_p1_h]
    [add output0_p1_l seven_u16; add output0_p1_h seven_u16;
     add output1_p1_l seven_u16; add output1_p1_h seven_u16]
    [output0_p2_l; output0_p2_h; output1_p2_l; output1_p2_h].

(** The shifts, narrowings and combinations that end [h2v2_blend], with
    the two narrowing shifts as parameters: the kernel runs it with
    [vshrn_n_u16] and [vrshrn_n_u16]. *)
Definition h2v2_narrow (shrn rshrn : list Z -> Z -> list Z)
  (s : h2v2_sum_vectors) : (list Z * list Z) * (list Z * list Z) :=
  match outputs_p1 s, outputs_p2 s with
  | [output0_p1_l; output0_p1_h; output1_p1_l; output1_p1_h],
    [output0_p2_l; output0_p2_h; output1_p2_l; output1_p2_h] =>
      ((vcombine_u8 (shrn output0_p1_l 4) (shrn output0_p1_h 4),
        vcombine_u8 (rshrn output0_p2_l 4) (rshrn output0_p2_h 4)),
       (vcombine_u8 (shrn output1_p1_l 4) (shrn output1_p1_h 4),
        vcombine_u8 (rshrn output1_p2_l 4) (rshrn output1_p2_h 4)))
  | _, _ => (([], []), ([], []))
  end.

(** The 16-bit vectors of one h1v2 column step: the two column sums of the
    top row after the bias, and the two column sums of the bottom row. *)
Definition h1v2_sums
  (mlal : list Z -> list Z -> list Z -> list Z)
  (add : list Z -> list Z -> list Z)
  (r0 r1 r2 : list Z) : list (list Z) * list (list Z) :=
  let colsum0_l :=
    mlal (vmovl_u8 (vget_low_u8 r0)) (vget_low_u8 r1) three_u8 in
  let colsum0_h :=
    mlal (vmovl_u8 (vget_high_u8 r0)) (vget_high_u8 r1) three_u8 in
  let colsum1_l :=
    mlal (vmovl_u8 (vget_low_u8 r2)) (vget_low_u8 r1) three_u8 in
  let colsum1_h :=
    mlal (vmovl_u8 (vget_high_u8 r2)) (vget_high_u8 r1) three_u8 in
  ([add colsum0_l one_u16; add colsum0_h one_u16], [colsum1_l; colsum1_h]).

Definition h1v2_narrow (shrn rshrn : list Z -> Z -> list Z)
  (s : list (list Z) * list (list Z)) : list Z * list Z :=
  match s with
  | ([colsum0_l; colsum0_h], [colsum1_l; colsum1_h]) =>
      (vcombine_u8 (shrn colsum0_l 2) (shrn colsum0_h 2),
       vcombine_u8 (rshrn colsum1_l 2) (rshrn colsum1_h 2))
  | _ => ([], [])
  end.

(** The vector operations on unbounded integers: no lane wraps and no
    narrowing drops bits. *)
Definition exact_mla (a b c : list Z) : list Z :=
  map3 (fun x y z => x + y * z) a b c.
Definition exact_add (a b : list Z) : list Z := map2 Z.add a b.
Definition exact_shr (a : list Z) (n : Z) : list Z :=
  map (fun x => Z.shiftr x n) a.
Definition exact_rshr (a : list Z) (n : Z) : list Z :=
  map (fun x => Z.shiftr (x + Z.shiftl 1 (n - 1)) n) a.

(** Every lane of every vector of [vs] satisfies [P]. *)
Definition all_lanes (P : Z -> Prop) (vs : list (list Z)) : Prop :=
  Forall (Forall P) vs.

(** An output table whose rows hold other bytes than [ex_output]. *)
Definition ex_output_used : JSAMPARRAY :=
  mkArray [repeat 9 64%nat; repeat 5 64%nat] 0.

(** The known vector with the rows above and below exchanged. *)
Definition ex_input_exchanged : JSAMPARRAY :=
  mkArray [pad 32 [70; 80; 90]; pad 32 [40; 50; 60]; pad 32 [10; 20; 30]] 1.

(** ** Relations between sample rows *)

(** The first [w] samples of [r] and [r'] coincide. *)
Definition agree (w : Z) (r r' : JSAMPROW) : bool :=
  forallb (fun c => rd r c =? rd r' c) (zrange 0 (Z.to_nat w)).

(** The first [w] samples of [r] lie between [lo] and [hi]. *)
Definition within (lo hi w : Z) (r : JSAMPROW) : bool :=
  forallb (fun c => (lo <=? rd r c) && (rd r c <=? hi))
          (zrange 0 (Z.to_nat w)).

(** Sample by sample, the first [w] samples of [r] are at most those of
    [r']. *)
Definition below_row (w : Z) (r r' : JSAMPROW) : bool :=
  forallb (fun c => rd r c <=? rd r' c) (zrange 0 (Z.to_nat w)).

(** An output table with a third row behind the row group. *)
Definition ex_output3 : JSAMPARRAY :=
  mkArray [repeat 0 64%nat; repeat 0 64%nat; pad 64 [1; 2; 3]] 0.

(** An input table with the context rows of two input rows. *)
Definition ex_input4 : JSAMPARRAY :=
  mkArray [pad 32 [10; 20; 30]; pad 32 [40; 50; 60]; pad 32 [70; 80; 90];
           pad 32 [100; 110; 120]] 1.

(** * Verification *)


(** ** Arithmetic and list facts *)

Ltac zdiv := Z.div_mod_to_equations; lia.

Lemma shiftr4 x : Z.shiftr x 4 = x / 16.
Proof. now rewrite Z.shiftr_div_pow2 by lia. Qed.

Lemma shiftr2 x : Z.shiftr x 2 = x / 4.
Proof. now rewrite Z.shiftr_div_pow2 by lia. Qed.

Lemma odd_mod2 x : Z.odd x = (x mod 2 =? 1).
Proof.
  rewrite <- Z.bit0_mod, <- Z.bit0_odd.
  now destruct (Z.testbit x 0).
Qed.

Lemma even_mod2 x : Z.even x = (x mod 2 =? 0).
Proof.
  rewrite <- Z.negb_odd, odd_mod2.
  destruct (Z.eqb_spec (x mod 2) 1), (Z.eqb_spec (x mod 2) 0); simpl; zdiv.
Qed.

Lemma len_nonneg {A} (l : list A) : 0 <= len l.
Proof. unfold len; lia. Qed.

Lemma len_app {A} (l1 l2 : list A) : len (l1 ++ l2) = len l1 + len l2.
Proof. unfold len; rewrite length_app; lia. Qed.

Lemma in_zrange lo n k :
  lo <= k < lo + Z.of_nat n -> In k (zrange lo n).
Proof.
  intros H. unfold zrange. apply in_map_iff.
  exists (Z.to_nat (k - lo)). split; [lia|].
  apply in_seq. lia.
Qed.

Lemma forallb_zrange (f : Z -> bool) lo n :
  forallb f (zrange lo n) = true ->
  forall k, lo <= k < lo + Z.of_nat n -> f k = true.
Proof.
  intros H k Hk. rewrite forallb_forall in H.
  apply H, in_zrange, Hk.
Qed.

Lemma nth_map_zrange (f : Z -> Z) n d :
  0 <= d < Z.of_nat n ->
  nth (Z.to_nat d) (map f (zrange 0 n)) 0 = f d.
Proof.
  intros H. unfold zrange. rewrite map_map.
  rewrite nth_indep with (d' := f (0 + Z.of_nat 0)).
  - rewrite (map_nth (fun k => f (0 + Z.of_nat k)) (seq 0 n) 0%nat).
    rewrite seq_nth by lia. f_equal. lia.
  - rewrite length_map, length_seq. lia.
Qed.

Lemma firstn_skipn_nth (buf : list Z) : forall (n m : nat),
  (m + n <= length buf)%nat ->
  firstn n (skipn m buf) = map (fun k => nth (m + k) buf 0) (seq 0 n).
Proof.
  intros n m H.
  apply nth_ext with (d := 0) (d' := nth (m + 0) buf 0).
  - rewrite length_firstn, length_skipn, length_map, length_seq. lia.
  - intros i Hi.
    rewrite length_firstn, length_skipn in Hi.
    rewrite nth_firstn.
    replace (i <? n)%nat with true by (symmetry; apply Nat.ltb_lt; lia).
    rewrite nth_skipn.
    rewrite (map_nth (fun k => nth (m + k) buf 0) (seq 0 n) 0%nat).
    rewrite seq_nth by lia. reflexivity.
Qed.

(** ** Memory *)

Lemma rd_in_bounds (buf : JSAMPROW) i :
  forallb is_u8 buf = true -> 0 <= i < len buf -> 0 <= rd buf i <= 255.
Proof.
  intros Hb Hi. rewrite forallb_forall in Hb.
  assert (In (rd buf i) buf) as Hin.
  { unfold rd. apply nth_In. unfold len in Hi. lia. }
  apply Hb in Hin. unfold is_u8 in Hin. lia.
Qed.

Lemma load_rd buf i : 0 <= i < len buf -> load buf i = Some (rd buf i).
Proof.
  intros H. unfold load.
  replace ((0 <=? i) && (i <? len buf)) with true; [reflexivity|].
  symmetry. apply andb_true_iff. lia.
Qed.

Lemma store_bytes_ok buf off bs :
  0 <= off -> off + len bs <= len buf ->
  exists buf', store_bytes buf off bs = Some buf' /\
    len buf' = len buf /\
    forall j, 0 <= j ->
      rd buf' j = if (off <=? j) && (j <? off + len bs)
                  then nth (Z.to_nat (j - off)) bs 0 else rd buf j.
Proof.
  intros H0 H1. unfold store_bytes.
  replace ((0 <=? off) && (off + len bs <=? len buf)) with true
    by (symmetry; apply andb_true_iff; lia).
  eexists. split; [reflexivity|]. unfold len in *.
  assert (length (firstn (Z.to_nat off) buf) = Z.to_nat off) as Hf
    by (rewrite length_firstn; lia).
  split.
  - rewrite !length_app, Hf, length_skipn. lia.
  - intros j Hj. unfold rd.
    destruct (Z.leb_spec off j); simpl.
    + rewrite app_nth2 by lia. rewrite Hf.
      destruct (Z.ltb_spec j (off + Z.of_nat (length bs))).
      * rewrite app_nth1 by lia. f_equal. lia.
      * rewrite app_nth2 by lia. rewrite nth_skipn. f_equal. lia.
    + rewrite app_nth1 by lia. rewrite nth_firstn.
      replace (Z.to_nat j <? Z.to_nat off)%nat with true
        by (symmetry; apply Nat.ltb_lt; lia).
      reflexivity.
Qed.

Lemma vld1q_u8_ok buf off :
  0 <= off -> off + 16 <= len buf ->
  vld1q_u8 buf off = Some (map (fun k => rd buf (off + k)) lanes16).
Proof.
  intros H0 H1. unfold vld1q_u8.
  replace ((0 <=? off) && (off + 16 <=? len buf)) with true
    by (symmetry; apply andb_true_iff; lia).
  f_equal. unfold len in H1.
  rewrite firstn_skipn_nth by lia.
  unfold lanes16, zrange. rewrite map_map.
  apply map_ext. intros k. unfold rd. f_equal. lia.
Qed.

Lemma vld1q_u8_ok' buf c :
  1 <= c -> c + 15 <= len buf ->
  vld1q_u8 buf (c - 1) = Some (map (fun k => rd buf (c + k - 1)) lanes16).
Proof.
  intros H0 H1. rewrite vld1q_u8_ok by lia. f_equal.
  apply map_ext. intros k. f_equal. lia.
Qed.

Lemma interleave_map (f g : Z -> Z) (l : list Z) :
  interleave (map f l) (map g l) = flat_map (fun k => [f k; g k]) l.
Proof. induction l; simpl; [reflexivity | now rewrite IHl]. Qed.

Lemma nth_pairs16 (f g : Z -> Z) d :
  0 <= d < 32 ->
  nth (Z.to_nat d) (flat_map (fun k => [f k; g k]) lanes16) 0
  = if Z.even d then f (d / 2) else g (d / 2).
Proof.
  intros H.
  assert (In d (zrange 0 32)) as Hin by (apply in_zrange; lia).
  cbv [zrange seq map] in Hin. simpl in Hin.
  repeat (destruct Hin as [<- | Hin]; [reflexivity|]).
  destruct Hin.
Qed.

(** ** What one vector block writes *)

Lemma lanes16_eq :
  lanes16 = [0; 1; 2; 3; 4; 5; 6; 7; 8; 9; 10; 11; 12; 13; 14; 15].
Proof. reflexivity. Qed.

Lemma len_pairs16 (f g : Z -> Z) :
  len (flat_map (fun k => [f k; g k]) lanes16) = 32.
Proof. reflexivity. Qed.

Lemma len_map16 (f : Z -> Z) : len (map f lanes16) = 16.
Proof. reflexivity. Qed.

Lemma h2v2_blend_lanes (in0 in1 in2 : JSAMPROW) (c : Z) :
  h2v2_blend (map (fun k => rd in0 (c + k - 1)) lanes16)
             (map (fun k => rd in1 (c + k - 1)) lanes16)
             (map (fun k => rd in2 (c + k - 1)) lanes16)
             (map (fun k => rd in0 (c + k)) lanes16)
             (map (fun k => rd in1 (c + k)) lanes16)
             (map (fun k => rd in2 (c + k)) lanes16)
  = ((map (fun k => vec_p1 in0 in1 (c + k)) lanes16,
      map (fun k => vec_p2 in0 in1 (c + k)) lanes16),
     (map (fun k => vec_p1 in2 in1 (c + k)) lanes16,
      map (fun k => vec_p2 in2 in1 (c + k)) lanes16)).
Proof.
  rewrite lanes16_eq.
  cbv [h2v2_blend vget_low_u8 vget_high_u8 vcombine_u8 vmovl_u8 vmlal_u8
       vmlaq_u16 vaddq_u16 vshrn_n_u16 vrshrn_n_u16 three_u8 three_u16
       seven_u16 vdup_n_u8 vdupq_n_u16 repeat map map2 map3 firstn skipn app
       vec_p1 vec_p2 colsum16].
  reflexivity.
Qed.

Lemma vec_pixel_shift far near c j :
  2 * c - 1 <= j ->
  vec_pixel far near j
  = if Z.even (j - (2 * c - 1))
    then vec_p1 far near (c + (j - (2 * c - 1)) / 2)
    else vec_p2 far near (c + (j - (2 * c - 1)) / 2).
Proof.
  intros Hd. unfold vec_pixel.
  replace ((j + 1) / 2) with (c + (j - (2 * c - 1)) / 2) by zdiv.
  rewrite odd_mod2, even_mod2.
  destruct (Z.eqb_spec (j mod 2) 1),
           (Z.eqb_spec ((j - (2 * c - 1)) mod 2) 0); try reflexivity; zdiv.
Qed.

(** The block at column boundary [c]: loads at [c - 1] and [c], stores at
    [2c - 1]. *)
Lemma h2v2_block_spec (c : Z) (in0 in1 in2 o0 o1 : JSAMPROW) :
  1 <= c ->
  c + 16 <= len in0 -> c + 16 <= len in1 -> c + 16 <= len in2 ->
  2 * c + 31 <= len o0 -> 2 * c + 31 <= len o1 ->
  exists o0' o1',
    h2v2_block (c - 1) c (2 * c - 1) in0 in1 in2 o0 o1 = Some (o0', o1') /\
    len o0' = len o0 /\ len o1' = len o1 /\
    (forall j, 0 <= j ->
       rd o0' j = if (2 * c - 1 <=? j) && (j <? 2 * c + 31)
                  then vec_pixel in0 in1 j else rd o0 j) /\
    (forall j, 0 <= j ->
       rd o1' j = if (2 * c - 1 <=? j) && (j <? 2 * c + 31)
                  then vec_pixel in2 in1 j else rd o1 j).
Proof.
  intros Hc H0 H1 H2 Ho0 Ho1. unfold h2v2_block.
  rewrite !vld1q_u8_ok' by lia. unfold bind at 1 2 3.
  rewrite !vld1q_u8_ok by lia. unfold bind at 1 2 3.
  rewrite h2v2_blend_lanes. unfold vst2q_u8, fst, snd.
  rewrite !interleave_map.
  destruct (store_bytes_ok o0 (2 * c - 1)
              (flat_map (fun k => [vec_p1 in0 in1 (c + k);
                                   vec_p2 in0 in1 (c + k)]) lanes16))
    as (o0' & E0 & L0 & R0); [lia | rewrite len_pairs16; lia |].
  destruct (store_bytes_ok o1 (2 * c - 1)
              (flat_map (fun k => [vec_p1 in2 in1 (c + k);
                                   vec_p2 in2 in1 (c + k)]) lanes16))
    as (o1' & E1 & L1 & R1); [lia | rewrite len_pairs16; lia |].
  rewrite E0, E1. unfold bind.
  exists o0', o1'. repeat split; trivial.
  - intros j Hj. rewrite R0, len_pairs16 by trivial.
    replace (2 * c - 1 + 32) with (2 * c + 31) by lia.
    destruct ((2 * c - 1 <=? j) && (j <? 2 * c + 31)) eqn:E; [|reflexivity].
    apply andb_true_iff in E.
    rewrite nth_pairs16 by lia.
    rewrite (vec_pixel_shift _ _ c j) by lia. reflexivity.
  - intros j Hj. rewrite R1, len_pairs16 by trivial.
    replace (2 * c - 1 + 32) with (2 * c + 31) by lia.
    destruct ((2 * c - 1 <=? j) && (j <? 2 * c + 31)) eqn:E; [|reflexivity].
    apply andb_true_iff in E.
    rewrite nth_pairs16 by lia.
    rewrite (vec_pixel_shift _ _ c j) by lia. reflexivity.
Qed.

(** ** Lanes never wrap on 8-bit samples *)

Lemma colsum_range far near c :
  forallb is_u8 far = true -> forallb is_u8 near = true ->
  0 <= c < len far -> 0 <= c < len near ->
  0 <= colsum far near c <= 1020.
Proof.
  intros Hf Hn Hcf Hcn. unfold colsum.
  pose proof (rd_in_bounds far c Hf Hcf).
  pose proof (rd_in_bounds near c Hn Hcn). lia.
Qed.

Lemma colsum16_colsum far near c :
  forallb is_u8 far = true -> forallb is_u8 near = true ->
  0 <= c < len far -> 0 <= c < len near ->
  colsum16 far near c = colsum far near c.
Proof.
  intros Hf Hn Hcf Hcn.
  pose proof (colsum_range far near c Hf Hn Hcf Hcn) as H.
  unfold colsum16, mla_lane, u16. unfold colsum in *.
  rewrite Z.mod_small; lia.
Qed.

Lemma vec_p1_odd far near c :
  forallb is_u8 far = true -> forallb is_u8 near = true ->
  1 <= c < len far -> 1 <= c < len near ->
  vec_p1 far near c = h2v2_odd far near c.
Proof.
  intros Hf Hn Hcf Hcn. unfold vec_p1, h2v2_odd.
  rewrite !colsum16_colsum by (trivial; lia).
  pose proof (colsum_range far near c Hf Hn ltac:(lia) ltac:(lia)).
  pose proof (colsum_range far near (c - 1) Hf Hn ltac:(lia) ltac:(lia)).
  unfold shrn_lane, add_lane, mla_lane, u16, u8. rewrite !shiftr4.
  rewrite (Z.mod_small (_ + _ * 3)) by lia.
  rewrite (Z.mod_small (_ + 7)) by lia.
  rewrite Z.mod_small by zdiv. f_equal. lia.
Qed.

Lemma vec_p2_even far near c :
  forallb is_u8 far = true -> forallb is_u8 near = true ->
  1 <= c < len far -> 1 <= c < len near ->
  vec_p2 far near c = h2v2_even far near c.
Proof.
  intros Hf Hn Hcf Hcn. unfold vec_p2, h2v2_even.
  rewrite !colsum16_colsum by (trivial; lia).
  pose proof (colsum_range far near c Hf Hn ltac:(lia) ltac:(lia)).
  pose proof (colsum_range far near (c - 1) Hf Hn ltac:(lia) ltac:(lia)).
  unfold rshrn_lane, mla_lane, u16, u8. rewrite !shiftr4.
  change (Z.shiftl 1 (4 - 1)) with 8.
  rewrite (Z.mod_small (_ + _ * 3)) by lia.
  rewrite Z.mod_small by zdiv. f_equal. lia.
Qed.

Lemma boundary_cast far near c bias :
  forallb is_u8 far = true -> forallb is_u8 near = true ->
  0 <= c < len far -> 0 <= c < len near -> 0 <= bias <= 8 ->
  to_JSAMPLE
    (Z.shiftr ((GETJSAMPLE (rd near c) * 3 + GETJSAMPLE (rd far c)) * 4
               + bias) 4)
  = Z.shiftr (colsum far near c * 4 + bias) 4.
Proof.
  intros Hf Hn Hcf Hcn Hb.
  pose proof (colsum_range far near c Hf Hn Hcf Hcn) as H.
  unfold to_JSAMPLE, GETJSAMPLE, u8. unfold colsum in *.
  rewrite !shiftr4.
  replace (rd near c * 3) with (3 * rd near c) by lia.
  apply Z.mod_small. zdiv.
Qed.

Lemma vec_pixel_scalar w far near j :
  forallb is_u8 far = true -> forallb is_u8 near = true ->
  w <= len far -> w <= len near ->
  1 <= j < 2 * w - 1 ->
  vec_pixel far near j = h2v2_scalar_pixel w far near j.
Proof.
  intros Hf Hn Hwf Hwn Hj. unfold vec_pixel, h2v2_scalar_pixel.
  replace (j =? 0) with false by (symmetry; apply Z.eqb_neq; lia).
  replace (j =? 2 * w - 1) with false by (symmetry; apply Z.eqb_neq; lia).
  destruct (Z.odd j) eqn:E.
  - apply vec_p1_odd; trivial; zdiv.
  - rewrite odd_mod2 in E. apply Z.eqb_neq in E.
    replace ((j + 1) / 2) with (j / 2) by zdiv.
    apply vec_p2_even; trivial; zdiv.
Qed.

(** ** The column loop of the h2v2 kernel *)

Lemma round_up16_step colctr w :
  0 <= colctr -> colctr mod 16 = 0 -> colctr < w ->
  colctr + 16 <= round_up16 w.
Proof. unfold round_up16. intros. zdiv. Qed.

Lemma round_up16_ge w : w <= round_up16 w.
Proof. unfold round_up16. zdiv. Qed.

Lemma h2v2_cols_spec (w : Z) (in0 in1 in2 : JSAMPROW) :
  w < 2147483648 ->
  round_up16 w <= len in0 -> round_up16 w <= len in1 ->
  round_up16 w <= len in2 ->
  forall (fuel : nat) (colctr : Z) (o0 o1 : JSAMPROW),
    16 <= colctr -> colctr mod 16 = 0 ->
    w - colctr <= 16 * Z.of_nat fuel ->
    2 * round_up16 w <= len o0 -> 2 * round_up16 w <= len o1 ->
    exists o0' o1',
      h2v2_cols fuel colctr w in0 in1 in2 o0 o1 = Some (o0', o1') /\
      written in0 in1 (2 * colctr - 1) (2 * w - 1) o0 o0' /\
      written in2 in1 (2 * colctr - 1) (2 * w - 1) o1 o1'.
Proof.
  intros Hw H0 H1 H2.
  assert (forall fuel colctr o0 o1, w <= colctr ->
            exists o0' o1',
              h2v2_cols fuel colctr w in0 in1 in2 o0 o1 = Some (o0', o1') /\
              written in0 in1 (2 * colctr - 1) (2 * w - 1) o0 o0' /\
              written in2 in1 (2 * colctr - 1) (2 * w - 1) o1 o1') as Hexit.
  { intros fuel colctr o0 o1 Hge. exists o0, o1.
    split.
    - destruct fuel; simpl;
        destruct (Z.ltb_spec colctr w); try lia; reflexivity.
    - split; (split; [reflexivity|]); intros j Hj; split; trivial; lia. }
  induction fuel as [|fuel IH]; intros colctr o0 o1 Hc Hm Hf Ho0 Ho1;
    destruct (Z.lt_ge_cases colctr w) as [Hlt | Hge];
    try (apply Hexit; exact Hge); [exfalso; lia|].
  cbn [h2v2_cols].
  destruct (Z.ltb_spec colctr w); [|lia].
  pose proof (round_up16_step colctr w ltac:(lia) Hm Hlt) as Hr.
  replace (u32 (2 * colctr)) with (2 * colctr)
    by (unfold u32; rewrite Z.mod_small; lia).
  replace (u32 (colctr + 16)) with (colctr + 16)
    by (unfold u32; rewrite Z.mod_small; lia).
  destruct (h2v2_block_spec colctr in0 in1 in2 o0 o1)
    as (a0 & a1 & E & La0 & La1 & Ra0 & Ra1); try lia.
  rewrite E. unfold bind at 1.
  destruct (IH (colctr + 16) a0 a1)
    as (o0' & o1' & E' & [L0 R0] & [L1 R1]); try lia.
  { rewrite <- Zplus_mod_idemp_l, Hm. reflexivity. }
  exists o0', o1'. split; [exact E'|].
  split; (split; [lia|]); intros j Hj.
  - destruct (R0 j Hj) as [Rlo Rhi]. specialize (Ra0 j Hj).
    destruct (Z.leb_spec (2 * colctr - 1) j),
             (Z.ltb_spec j (2 * colctr + 31));
      simpl in Ra0; split; intros; try lia;
      try (rewrite Rlo by lia; exact Ra0);
      try (apply Rhi; lia).
  - destruct (R1 j Hj) as [Rlo Rhi]. specialize (Ra1 j Hj).
    destruct (Z.leb_spec (2 * colctr - 1) j),
             (Z.ltb_spec j (2 * colctr + 31));
      simpl in Ra1; split; intros; try lia;
      try (rewrite Rlo by lia; exact Ra1);
      try (apply Rhi; lia).
Qed.

(** ** One iteration of the h2v2 row loop *)

Lemma good_in_h2v2_elim w r :
  good_in_h2v2 w r = true ->
  17 <= len r /\ round_up16 w <= len r /\ forallb is_u8 r = true.
Proof.
  unfold good_in_h2v2. rewrite !andb_true_iff, !Z.leb_le. tauto.
Qed.

Lemma good_out_h2v2_elim w o :
  good_out_h2v2 w o = true -> 33 <= len o /\ 2 * round_up16 w <= len o.
Proof.
  unfold good_out_h2v2. rewrite !andb_true_iff, !Z.leb_le. tauto.
Qed.

Lemma store_ok buf i v :
  0 <= i < len buf ->
  exists buf', store buf i v = Some buf' /\ len buf' = len buf /\
    forall j, 0 <= j -> rd buf' j = if j =? i then v else rd buf j.
Proof.
  intros H. unfold store.
  destruct (store_bytes_ok buf i [v]) as (buf' & E & L & R);
    [lia | change (len [v]) with 1; lia |].
  exists buf'. repeat split; trivial.
  intros j Hj. rewrite (R j Hj). change (len [v]) with 1.
  destruct (Z.eqb_spec j i) as [-> | Hne].
  - replace ((i <=? i) && (i <? i + 1)) with true
      by (symmetry; apply andb_true_iff; lia).
    now rewrite Z.sub_diag.
  - destruct (Z.leb_spec i j), (Z.ltb_spec j (i + 1)); simpl;
      try reflexivity; lia.
Qed.

Lemma h2v2_row_spec (w : Z) (in0 in1 in2 o0 o1 : JSAMPROW) :
  1 <= w < 2147483648 ->
  good_in_h2v2 w in0 = true -> good_in_h2v2 w in1 = true ->
  good_in_h2v2 w in2 = true ->
  good_out_h2v2 w o0 = true -> good_out_h2v2 w o1 = true ->
  exists top bot,
    h2v2_row w in0 in1 in2 o0 o1 = Some (top, bot) /\
    len top = len o0 /\ len bot = len o1 /\
    forall j, 0 <= j < 2 * w ->
      rd top j = h2v2_scalar_pixel w in0 in1 j /\
      rd bot j = h2v2_scalar_pixel w in2 in1 j.
Proof.
  intros Hw G0 G1 G2 Go0 Go1.
  apply good_in_h2v2_elim in G0 as (L0 & C0 & B0).
  apply good_in_h2v2_elim in G1 as (L1 & C1 & B1).
  apply good_in_h2v2_elim in G2 as (L2 & C2 & B2).
  apply good_out_h2v2_elim in Go0 as (Lo0 & Co0).
  apply good_out_h2v2_elim in Go1 as (Lo1 & Co1).
  pose proof (round_up16_ge w) as Hr.
  unfold h2v2_row.
  (* first pixel *)
  rewrite !(load_rd _ 0) by lia. cbn [bind].
  rewrite !boundary_cast by (trivial; lia).
  destruct (store_ok o0 0 (h2v2_first in0 in1)) as (a0 & Ea0 & La0 & Ra0);
    [lia|].
  destruct (store_ok o1 0 (h2v2_first in2 in1)) as (a1 & Ea1 & La1 & Ra1);
    [lia|].
  fold (h2v2_first in0 in1). fold (h2v2_first in2 in1).
  rewrite Ea0. cbn [bind]. rewrite Ea1. cbn [bind].
  (* first sixteen columns *)
  destruct (h2v2_block_spec 1 in0 in1 in2 a0 a1)
    as (b0 & b1 & Eb & Lb0 & Lb1 & Rb0 & Rb1); try lia.
  change (h2v2_block (1 - 1) 1 (2 * 1 - 1)) with (h2v2_block 0 1 1) in Eb.
  rewrite Eb. cbn [bind].
  (* column loop *)
  destruct (h2v2_cols_spec w in0 in1 in2 ltac:(lia) C0 C1 C2
              (Z.to_nat w) 16 b0 b1)
    as (c0 & c1 & Ec & [Lc0 Rc0] & [Lc1 Rc1]); try lia; [reflexivity|].
  rewrite Ec. cbn [bind].
  (* last pixel *)
  replace (u32 (w - 1)) with (w - 1)
    by (unfold u32; rewrite Z.mod_small; lia).
  replace (u32 (2 * w - 1)) with (2 * w - 1)
    by (unfold u32; rewrite Z.mod_small; lia).
  rewrite !(load_rd _ (w - 1)) by lia. cbn [bind].
  rewrite !boundary_cast by (trivial; lia).
  fold (h2v2_last w in0 in1). fold (h2v2_last w in2 in1).
  destruct (store_ok c0 (2 * w - 1) (h2v2_last w in0 in1))
    as (d0 & Ed0 & Ld0 & Rd0); [lia|].
  destruct (store_ok c1 (2 * w - 1) (h2v2_last w in2 in1))
    as (d1 & Ed1 & Ld1 & Rd1); [lia|].
  rewrite Ed0. cbn [bind]. rewrite Ed1. cbn [bind].
  exists d0, d1. split; [reflexivity|].
  split; [lia|]. split; [lia|].
  intros j Hj.
  rewrite Rd0, Rd1 by lia.
  destruct (Z.eqb_spec j (2 * w - 1)) as [Elast | Hnl].
  { unfold h2v2_scalar_pixel. subst j.
    replace (2 * w - 1 =? 0) with false by (symmetry; apply Z.eqb_neq; lia).
    now rewrite Z.eqb_refl. }
  destruct (Rc0 j ltac:(lia)) as [Rc0lo Rc0hi].
  destruct (Rc1 j ltac:(lia)) as [Rc1lo Rc1hi].
  destruct (Z.lt_ge_cases j 31) as [Hlo | Hhi].
  - rewrite Rc0lo, Rc1lo by lia.
    rewrite Rb0, Rb1 by lia.
    destruct (Z.eq_dec j 0) as [-> | Hnz].
    + simpl. rewrite Ra0, Ra1 by lia. simpl.
      unfold h2v2_scalar_pixel. now rewrite Z.eqb_refl.
    + replace ((2 * 1 - 1 <=? j) && (j <? 2 * 1 + 31)) with true
        by (symmetry; apply andb_true_iff; lia).
      split; apply vec_pixel_scalar; trivial; lia.
  - rewrite Rc0hi, Rc1hi by lia.
    split; apply vec_pixel_scalar; trivial; lia.
Qed.

(** ** The h1v2 kernel, one row pair *)

Lemma h1v2_blend_lanes (in0 in1 in2 : JSAMPROW) (c : Z) :
  h1v2_blend (map (fun k => rd in0 (c + k)) lanes16)
             (map (fun k => rd in1 (c + k)) lanes16)
             (map (fun k => rd in2 (c + k)) lanes16)
  = (map (fun k => vec_top in0 in1 (c + k)) lanes16,
     map (fun k => vec_bottom in2 in1 (c + k)) lanes16).
Proof.
  rewrite lanes16_eq.
  cbv [h1v2_blend vget_low_u8 vget_high_u8 vcombine_u8 vmovl_u8 vmlal_u8
       vaddq_u16 vshrn_n_u16 vrshrn_n_u16 three_u8 one_u16
       vdup_n_u8 vdupq_n_u16 repeat map map2 map3 firstn skipn app
       vec_top vec_bottom colsum16].
  reflexivity.
Qed.

Lemma vec_top_scalar above cur c :
  forallb is_u8 above = true -> forallb is_u8 cur = true ->
  0 <= c < len above -> 0 <= c < len cur ->
  vec_top above cur c = h1v2_top above cur c.
Proof.
  intros Ha Hc Hca Hcc. unfold vec_top, h1v2_top.
  rewrite colsum16_colsum by trivial.
  pose proof (colsum_range above cur c Ha Hc Hca Hcc).
  unfold shrn_lane, add_lane, u16, u8. rewrite !shiftr2.
  rewrite (Z.mod_small (_ + 1)) by lia.
  apply Z.mod_small. zdiv.
Qed.

Lemma vec_bottom_scalar below cur c :
  forallb is_u8 below = true -> forallb is_u8 cur = true ->
  0 <= c < len below -> 0 <= c < len cur ->
  vec_bottom below cur c = h1v2_bottom below cur c.
Proof.
  intros Hb Hc Hcb Hcc. unfold vec_bottom, h1v2_bottom.
  rewrite colsum16_colsum by trivial.
  pose proof (colsum_range below cur c Hb Hc Hcb Hcc).
  unfold rshrn_lane, u8. rewrite !shiftr2.
  change (Z.shiftl 1 (2 - 1)) with 2.
  apply Z.mod_small. zdiv.
Qed.

Lemma h1v2_cols_spec (w : Z) (in0 in1 in2 : JSAMPROW) :
  w <= 4294967280 ->
  round_up16 w <= len in0 -> round_up16 w <= len in1 ->
  round_up16 w <= len in2 ->
  forall (fuel : nat) (colctr : Z) (o0 o1 : JSAMPROW),
    0 <= colctr -> colctr mod 16 = 0 ->
    w - colctr <= 16 * Z.of_nat fuel ->
    round_up16 w <= len o0 -> round_up16 w <= len o1 ->
    exists o0' o1',
      h1v2_cols fuel colctr w in0 in1 in2 o0 o1 = Some (o0', o1') /\
      len o0' = len o0 /\ len o1' = len o1 /\
      forall j, 0 <= j ->
        (j < colctr -> rd o0' j = rd o0 j /\ rd o1' j = rd o1 j) /\
        (colctr <= j < w ->
         rd o0' j = vec_top in0 in1 j /\ rd o1' j = vec_bottom in2 in1 j).
Proof.
  intros Hw H0 H1 H2.
  induction fuel as [|fuel IH]; intros colctr o0 o1 Hc Hm Hf Ho0 Ho1;
    destruct (Z.lt_ge_cases colctr w) as [Hlt | Hge].
  - exfalso; lia.
  - exists o0, o1. simpl. destruct (Z.ltb_spec colctr w); [lia|].
    repeat split; trivial; lia.
  - cbn [h1v2_cols]. destruct (Z.ltb_spec colctr w); [|lia].
    pose proof (round_up16_step colctr w Hc Hm Hlt) as Hr.
    rewrite !vld1q_u8_ok by lia. cbn [bind].
    rewrite h1v2_blend_lanes. unfold vst1q_u8.
    destruct (store_bytes_ok o0 colctr
                (map (fun k => vec_top in0 in1 (colctr + k)) lanes16))
      as (a0 & Ea0 & La0 & Ra0); [lia | rewrite len_map16; lia |].
    destruct (store_bytes_ok o1 colctr
                (map (fun k => vec_bottom in2 in1 (colctr + k)) lanes16))
      as (a1 & Ea1 & La1 & Ra1); [lia | rewrite len_map16; lia |].
    rewrite Ea0. cbn [bind]. rewrite Ea1. cbn [bind].
    replace (u32 (colctr + 16)) with (colctr + 16)
      by (unfold u32; rewrite Z.mod_small; lia).
    destruct (IH (colctr + 16) a0 a1)
      as (o0' & o1' & E' & L0 & L1 & R); try lia.
    { rewrite <- Zplus_mod_idemp_l, Hm. reflexivity. }
    exists o0', o1'. split; [exact E'|].
    split; [lia|]. split; [lia|].
    intros j Hj. destruct (R j Hj) as [Rlo Rhi].
    specialize (Ra0 j Hj). specialize (Ra1 j Hj).
    rewrite len_map16 in Ra0, Ra1.
    destruct (Z.leb_spec colctr j), (Z.ltb_spec j (colctr + 16));
      cbn [andb] in Ra0, Ra1; split; intros Hrange; try lia.
    destruct (Rlo ltac:(lia)) as [-> ->]. rewrite Ra0, Ra1.
    unfold lanes16. rewrite !nth_map_zrange by lia.
    replace (colctr + (j - colctr)) with j by lia. auto.
  - exists o0, o1. simpl. destruct (Z.ltb_spec colctr w); [lia|].
    repeat split; trivial; lia.
Qed.

Lemma good_in_h1v2_elim w r :
  good_in_h1v2 w r = true ->
  round_up16 w <= len r /\ forallb is_u8 r = true.
Proof.
  unfold good_in_h1v2. rewrite !andb_true_iff, !Z.leb_le. tauto.
Qed.

Lemma h1v2_row_spec (w : Z) (in0 in1 in2 o0 o1 : JSAMPROW) :
  1 <= w <= 4294967280 ->
  good_in_h1v2 w in0 = true -> good_in_h1v2 w in1 = true ->
  good_in_h1v2 w in2 = true ->
  good_out_h1v2 w o0 = true -> good_out_h1v2 w o1 = true ->
  exists top bot,
    h1v2_row w in0 in1 in2 o0 o1 = Some (top, bot) /\
    len top = len o0 /\ len bot = len o1 /\
    forall c, 0 <= c < w ->
      rd top c = h1v2_top in0 in1 c /\
      rd bot c = h1v2_bottom in2 in1 c.
Proof.
  intros Hw G0 G1 G2 Go0 Go1.
  apply good_in_h1v2_elim in G0 as (C0 & B0).
  apply good_in_h1v2_elim in G1 as (C1 & B1).
  apply good_in_h1v2_elim in G2 as (C2 & B2).
  unfold good_out_h1v2 in Go0, Go1. apply Z.leb_le in Go0, Go1.
  pose proof (round_up16_ge w) as Hr.
  unfold h1v2_row.
  destruct (h1v2_cols_spec w in0 in1 in2 ltac:(lia) C0 C1 C2
              (Z.to_nat w) 0 o0 o1)
    as (t & b & E & Lt & Lb & R); try lia; [reflexivity|].
  exists t, b. repeat split; trivial.
  - destruct (R c ltac:(lia)) as [_ Rhi].
    destruct (Rhi ltac:(lia)) as [-> _].
    apply vec_top_scalar; trivial; lia.
  - destruct (R c ltac:(lia)) as [_ Rhi].
    destruct (Rhi ltac:(lia)) as [_ ->].
    apply vec_bottom_scalar; trivial; lia.
Qed.

(** ** Row tables *)

Lemma length_update {A} (l : list A) : forall n x,
  length (update l n x) = length l.
Proof. induction l; destruct n; simpl; auto. Qed.

Lemma nth_error_update_eq {A} (l : list A) : forall n x,
  (n < length l)%nat -> nth_error (update l n x) n = Some x.
Proof.
  induction l; destruct n; simpl; intros; try lia; auto.
  apply IHl. lia.
Qed.

Lemma nth_error_update_neq {A} (l : list A) : forall n m x,
  n <> m -> nth_error (update l n x) m = nth_error l m.
Proof.
  induction l; destruct n, m; simpl; intros; try congruence; auto.
Qed.

Lemma row_get_some a k r :
  row_get a k = Some r ->
  0 <= tbl_origin a + k /\
  (Z.to_nat (tbl_origin a + k) < length (tbl_rows a))%nat.
Proof.
  unfold row_get.
  destruct (Z.leb_spec 0 (tbl_origin a + k)) as [Hp | Hp]; [|discriminate].
  intros Hr. split; [trivial|]. apply nth_error_Some. congruence.
Qed.

Lemma row_get_set_eq a k r0 r :
  row_get a k = Some r0 -> row_get (row_set a k r) k = Some r.
Proof.
  intros H. apply row_get_some in H as [H0 H1].
  unfold row_get, row_set. simpl.
  destruct (Z.leb_spec 0 (tbl_origin a + k)); [|lia].
  now apply nth_error_update_eq.
Qed.

Lemma row_get_set_neq a k k' r0 r :
  row_get a k = Some r0 -> k' <> k ->
  row_get (row_set a k r) k' = row_get a k'.
Proof.
  intros H Hne. apply row_get_some in H as [H0 H1].
  unfold row_get, row_set. simpl.
  destruct (Z.leb_spec 0 (tbl_origin a + k')); [|reflexivity].
  apply nth_error_update_neq. lia.
Qed.

Lemma row_ok_elim good a k :
  row_ok good a k = true -> exists r, row_get a k = Some r /\ good r = true.
Proof.
  unfold row_ok. destruct (row_get a k) as [r|]; [|discriminate].
  intros H. now exists r.
Qed.

(** ** The row loop *)

Section RowLoop.

Variable body : JSAMPROW -> JSAMPROW -> JSAMPROW -> JSAMPROW -> JSAMPROW ->
                option (JSAMPROW * JSAMPROW).
Variables good_in good_out : JSAMPROW -> bool.

Hypothesis body_ok : forall in0 in1 in2 o0 o1,
  good_in in0 = true -> good_in in1 = true -> good_in in2 = true ->
  good_out o0 = true -> good_out o1 = true ->
  exists t b, body in0 in1 in2 o0 o1 = Some (t, b).

Lemma row_loop_spec (n : Z) (input : JSAMPARRAY) :
  (forall k, -1 <= k <= n -> row_ok good_in input k = true) ->
  forall (fuel : nat) (i0 : Z) (cur : JSAMPARRAY),
    0 <= i0 <= n -> n - i0 <= Z.of_nat fuel ->
    (forall k, 2 * i0 <= k < 2 * n -> row_ok good_out cur k = true) ->
    exists out',
      row_loop body fuel i0 (2 * i0) (2 * n) input cur = Some out' /\
      (forall k, k < 2 * i0 -> row_get out' k = row_get cur k) /\
      forall i, i0 <= i < n ->
        iter_post body good_in good_out input cur out' i.
Proof.
  intros Hin.
  induction fuel as [|fuel IH]; intros i0 cur Hi Hf Hout;
    destruct (Z.lt_ge_cases i0 n) as [Hlt | Hge].
  - exfalso; lia.
  - exists cur. cbn [row_loop].
    destruct (Z.ltb_spec (2 * i0) (2 * n)); [lia|].
    split; [reflexivity|]. split; [reflexivity|]. intros; lia.
  - cbn [row_loop]. destruct (Z.ltb_spec (2 * i0) (2 * n)); [|lia].
    destruct (row_ok_elim _ _ _ (Hin (i0 - 1) ltac:(lia))) as (in0 & E0 & G0).
    destruct (row_ok_elim _ _ _ (Hin i0 ltac:(lia))) as (in1 & E1 & G1).
    destruct (row_ok_elim _ _ _ (Hin (i0 + 1) ltac:(lia))) as (in2 & E2 & G2).
    destruct (row_ok_elim _ _ _ (Hout (2 * i0) ltac:(lia)))
      as (o0 & Eo0 & Go0).
    destruct (row_ok_elim _ _ _ (Hout (2 * i0 + 1) ltac:(lia)))
      as (o1 & Eo1 & Go1).
    rewrite E0, E1, E2, Eo0, Eo1. cbn [bind].
    destruct (body_ok in0 in1 in2 o0 o1 G0 G1 G2 Go0 Go1) as (t & b & Eb).
    rewrite Eb. cbn [bind].
    set (cur' := row_set (row_set cur (2 * i0) t) (2 * i0 + 1) b).
    assert (row_get (row_set cur (2 * i0) t) (2 * i0 + 1) = Some o1) as Eo1'.
    { rewrite (row_get_set_neq _ _ _ _ _ Eo0) by lia. exact Eo1. }
    assert (forall k, k <> 2 * i0 -> k <> 2 * i0 + 1 ->
                      row_get cur' k = row_get cur k) as Hframe.
    { intros k Hk0 Hk1. unfold cur'.
      rewrite (row_get_set_neq _ _ _ _ _ Eo1') by lia.
      now rewrite (row_get_set_neq _ _ _ _ _ Eo0) by lia. }
    assert (row_get cur' (2 * i0) = Some t) as Et.
    { unfold cur'. rewrite (row_get_set_neq _ _ _ _ _ Eo1') by lia.
      apply (row_get_set_eq _ _ _ _ Eo0). }
    assert (row_get cur' (2 * i0 + 1) = Some b) as Ebt.
    { unfold cur'. apply (row_get_set_eq _ _ _ _ Eo1'). }
    replace (2 * i0 + 2) with (2 * (i0 + 1)) by lia.
    destruct (IH (i0 + 1) cur') as (out' & E' & Hlow & Hpost); try lia.
    { intros k Hk. unfold row_ok. rewrite Hframe by lia.
      apply Hout. lia. }
    exists out'. split; [exact E'|]. split.
    + intros k Hk. rewrite Hlow by lia. apply Hframe; lia.
    + intros i Hir. destruct (Z.eq_dec i i0) as [-> | Hne].
      * exists in0, in1, in2, o0, o1, t, b.
        rewrite !Hlow by lia. repeat split; trivial.
      * destruct (Hpost i ltac:(lia))
          as (a0 & a1 & a2 & p0 & p1 & t' & b' & Hi').
        exists a0, a1, a2, p0, p1, t', b'.
        rewrite <- !Hframe by lia. exact Hi'.
  - exists cur. cbn [row_loop].
    destruct (Z.ltb_spec (2 * i0) (2 * n)); [lia|].
    split; [reflexivity|]. split; [reflexivity|]. intros; lia.
Qed.

End RowLoop.

(** ** Valid calls *)

Lemma row_pair_mono result input i (P Q : _ -> _ -> _ -> _ -> _ -> Prop) :
  (forall above cur below top bot,
     P above cur below top bot -> Q above cur below top bot) ->
  row_pair result input i P -> row_pair result input i Q.
Proof.
  intros HPQ (out' & above & cur & below & top & bot & H).
  exists out', above, cur, below, top, bot. intuition.
Qed.

Lemma even_half max : Z.even max = true -> max = 2 * (max / 2).
Proof. rewrite even_mod2. intros H%Z.eqb_eq. zdiv. Qed.

Lemma h2v2_rows max w input output i :
  valid_h2v2 max w input output = true ->
  0 <= 2 * i < max ->
  row_pair (jsimd_h2v2_fancy_upsample_neon max w input output) input i
           (h2v2_post w).
Proof.
  unfold valid_h2v2. rewrite !andb_true_iff.
  intros [[[[[Hmax Hev] Hw1] Hw2] Hin] Hout] Hi.
  apply Z.leb_le in Hmax, Hw1. apply Z.ltb_lt in Hw2.
  pose proof (even_half max Hev) as Hn.
  set (n := max / 2) in *.
  unfold jsimd_h2v2_fancy_upsample_neon.
  destruct (row_loop_spec (h2v2_row w) (good_in_h2v2 w) (good_out_h2v2 w))
    with (n := n) (input := input) (fuel := Z.to_nat max) (i0 := 0)
         (cur := output) as (out' & E & _ & Hpost); try lia.
  - intros in0 in1 in2 o0 o1 G0 G1 G2 Go0 Go1.
    destruct (h2v2_row_spec w in0 in1 in2 o0 o1) as (t & b & Er & _);
      trivial; try lia.
    now exists t, b.
  - intros k Hk. apply (forallb_zrange _ _ _ Hin). lia.
  - intros k Hk. apply (forallb_zrange _ _ _ Hout). lia.
  - change (2 * 0) with 0 in E. rewrite <- Hn in E.
    destruct (Hpost i ltac:(lia))
      as (in0 & in1 & in2 & o0 & o1 & t & b & E0 & E1 & E2 & Eo0 & Eo1 &
          G0 & G1 & G2 & Go0 & Go1 & Eb & Et & Ebt).
    exists out', in0, in1, in2, t, b. repeat split; trivial.
    all: destruct (h2v2_row_spec w in0 in1 in2 o0 o1)
      as (t' & b' & Er & Lt & Lb & R); trivial; try lia;
      rewrite Er in Eb; injection Eb as <- <-;
      apply good_out_h2v2_elim in Go0 as [_ Co0];
      apply good_out_h2v2_elim in Go1 as [_ Co1];
      pose proof (round_up16_ge w); try lia; apply R; lia.
Qed.

Lemma h1v2_rows max w input output i :
  valid_h1v2 max w input output = true ->
  0 <= 2 * i < max ->
  row_pair (jsimd_h1v2_fancy_upsample_neon max w input output) input i
           (h1v2_post w).
Proof.
  unfold valid_h1v2. rewrite !andb_true_iff.
  intros [[[[[Hmax Hev] Hw1] Hw2] Hin] Hout] Hi.
  apply Z.leb_le in Hmax, Hw1, Hw2.
  pose proof (even_half max Hev) as Hn.
  set (n := max / 2) in *.
  unfold jsimd_h1v2_fancy_upsample_neon.
  destruct (row_loop_spec (h1v2_row w) (good_in_h1v2 w) (good_out_h1v2 w))
    with (n := n) (input := input) (fuel := Z.to_nat max) (i0 := 0)
         (cur := output) as (out' & E & _ & Hpost); try lia.
  - intros in0 in1 in2 o0 o1 G0 G1 G2 Go0 Go1.
    destruct (h1v2_row_spec w in0 in1 in2 o0 o1) as (t & b & Er & _);
      trivial; try lia.
    now exists t, b.
  - intros k Hk. apply (forallb_zrange _ _ _ Hin). lia.
  - intros k Hk. apply (forallb_zrange _ _ _ Hout). lia.
  - change (2 * 0) with 0 in E. rewrite <- Hn in E.
    destruct (Hpost i ltac:(lia))
      as (in0 & in1 & in2 & o0 & o1 & t & b & E0 & E1 & E2 & Eo0 & Eo1 &
          G0 & G1 & G2 & Go0 & Go1 & Eb & Et & Ebt).
    exists out', in0, in1, in2, t, b. repeat split; trivial.
    all: destruct (h1v2_row_spec w in0 in1 in2 o0 o1)
      as (t' & b' & Er & Lt & Lb & R); trivial; try lia;
      rewrite Er in Eb; injection Eb as <- <-;
      unfold good_out_h1v2 in Go0, Go1; apply Z.leb_le in Go0, Go1;
      pose proof (round_up16_ge w); try lia; apply R; lia.
Qed.

(** ** The per-pixel formulas at each kind of output index *)

Lemma load_of_rd buf j v :
  0 <= j < len buf -> rd buf j = v -> load buf j = Some v.
Proof. intros Hj <-. now apply load_rd. Qed.

Lemma scalar_pixel_first w far near :
  h2v2_scalar_pixel w far near 0 = h2v2_first far near.
Proof. reflexivity. Qed.

Lemma scalar_pixel_last w far near :
  1 <= w -> h2v2_scalar_pixel w far near (2 * w - 1) = h2v2_last w far near.
Proof.
  intros Hw. unfold h2v2_scalar_pixel.
  replace (2 * w - 1 =? 0) with false by (symmetry; apply Z.eqb_neq; lia).
  now rewrite Z.eqb_refl.
Qed.

Lemma scalar_pixel_odd w far near c :
  1 <= c < w ->
  h2v2_scalar_pixel w far near (2 * c - 1) = h2v2_odd far near c.
Proof.
  intros Hc. unfold h2v2_scalar_pixel.
  replace (2 * c - 1 =? 0) with false by (symmetry; apply Z.eqb_neq; lia).
  replace (2 * c - 1 =? 2 * w - 1) with false
    by (symmetry; apply Z.eqb_neq; lia).
  replace (Z.odd (2 * c - 1)) with true
    by (rewrite odd_mod2; symmetry; apply Z.eqb_eq; zdiv).
  f_equal. zdiv.
Qed.

Lemma scalar_pixel_even w far near c :
  1 <= c < w ->
  h2v2_scalar_pixel w far near (2 * c) = h2v2_even far near c.
Proof.
  intros Hc. unfold h2v2_scalar_pixel.
  replace (2 * c =? 0) with false by (symmetry; apply Z.eqb_neq; lia).
  replace (2 * c =? 2 * w - 1) with false
    by (symmetry; apply Z.eqb_neq; lia).
  replace (Z.odd (2 * c)) with false
    by (rewrite odd_mod2; symmetry; apply Z.eqb_neq; zdiv).
  f_equal. zdiv.
Qed.

Lemma valid_h2v2_width max w input output :
  valid_h2v2 max w input output = true -> 1 <= w < 2147483648.
Proof.
  unfold valid_h2v2. rewrite !andb_true_iff, !Z.leb_le, Z.ltb_lt. tauto.
Qed.

Lemma valid_h1v2_width max w input output :
  valid_h1v2 max w input output = true -> 1 <= w <= 4294967280.
Proof.
  unfold valid_h1v2. rewrite !andb_true_iff, !Z.leb_le. tauto.
Qed.

(** ** The kernels on the known vector *)

Example h2v2_known_vector :
  option_map (fun a => map (firstn 6) (tbl_rows a))
             (jsimd_h2v2_fancy_upsample_neon 2 3 ex_input ex_output)
  = Some [[33; 35; 40; 45; 50; 52]; [48; 50; 55; 60; 65; 67]].
Proof. reflexivity. Qed.

Example h1v2_known_vector :
  option_map (fun a => map (firstn 3) (tbl_rows a))
             (jsimd_h1v2_fancy_upsample_neon 2 3 ex_input ex_output)
  = Some [[32; 42; 52]; [48; 58; 68]].
Proof. reflexivity. Qed.

(** A missing context row is a fault, not a result. *)
Example h2v2_no_context_row :
  jsimd_h2v2_fancy_upsample_neon 2 3 (mkArray (tbl_rows ex_input) 0)
                                 ex_output = None.
Proof. reflexivity. Qed.

(** * The claims *)

(** C4. In the h2v2 kernel, for every input row [i], the first pixel of the
    top output row is [((3*in[i][0] + in[i-1][0]) * 4 + 8) >> 4] and the
    first pixel of the bottom output row is
    [((3*in[i][0] + in[i+1][0]) * 4 + 8) >> 4]: both use the bias 8. *)
Theorem h2v2_first_pixel max w input output i :
  valid_h2v2 max w input output = true ->
  0 <= 2 * i < max ->
  row_pair (jsimd_h2v2_fancy_upsample_neon max w input output) input i
    (fun above cur below top bot =>
       load top 0 = Some (Z.shiftr ((3 * rd cur 0 + rd above 0) * 4 + 8) 4) /\
       load bot 0 = Some (Z.shiftr ((3 * rd cur 0 + rd below 0) * 4 + 8) 4)).
Proof.
  intros Hv Hi. eapply row_pair_mono; [|apply (h2v2_rows _ _ _ _ _ Hv Hi)].
  intros above cur below top bot (_ & _ & _ & Lt & Lb & R).
  apply valid_h2v2_width in Hv.
  destruct (R 0 ltac:(lia)) as [Rt Rb].
  split; apply load_of_rd; try lia; assumption.
Qed.

Lemma h2v2_first_pixel_witness :
  row_pair (jsimd_h2v2_fancy_upsample_neon 2 3 ex_input ex_output)
    ex_input 0
    (fun above cur below top bot =>
       load top 0 = Some (Z.shiftr ((3 * rd cur 0 + rd above 0) * 4 + 8) 4) /\
       load bot 0 = Some (Z.shiftr ((3 * rd cur 0 + rd below 0) * 4 + 8) 4)).
Proof.
  apply (h2v2_first_pixel 2 3 ex_input ex_output 0); [reflexivity | lia].
Defined.

(** C3. In the h2v2 kernel, for every input row [i], the last pixel of each
    output row is computed from the last input column [w - 1] like the
    first pixel but with the bias 7:
    [out_top[2w-1] = ((3*in[i][w-1] + in[i-1][w-1]) * 4 + 7) >> 4] and
    [out_bottom[2w-1] = ((3*in[i][w-1] + in[i+1][w-1]) * 4 + 7) >> 4]. *)
Theorem h2v2_last_pixel max w input output i :
  valid_h2v2 max w input output = true ->
  0 <= 2 * i < max ->
  row_pair (jsimd_h2v2_fancy_upsample_neon max w input output) input i
    (fun above cur below top bot =>
       load top (2 * w - 1)
       = Some (Z.shiftr ((3 * rd cur (w - 1) + rd above (w - 1)) * 4 + 7) 4)
       /\
       load bot (2 * w - 1)
       = Some (Z.shiftr ((3 * rd cur (w - 1) + rd below (w - 1)) * 4 + 7) 4)).
Proof.
  intros Hv Hi. eapply row_pair_mono; [|apply (h2v2_rows _ _ _ _ _ Hv Hi)].
  intros above cur below top bot (_ & _ & _ & Lt & Lb & R).
  apply valid_h2v2_width in Hv.
  destruct (R (2 * w - 1) ltac:(lia)) as [Rt Rb].
  rewrite scalar_pixel_last in Rt, Rb by lia.
  split; apply load_of_rd; try lia; assumption.
Qed.

Lemma h2v2_last_pixel_witness :
  row_pair (jsimd_h2v2_fancy_upsample_neon 2 3 ex_input ex_output)
    ex_input 0
    (fun above cur below top bot =>
       load top (2 * 3 - 1)
       = Some (Z.shiftr ((3 * rd cur (3 - 1) + rd above (3 - 1)) * 4 + 7) 4)
       /\
       load bot (2 * 3 - 1)
       = Some (Z.shiftr ((3 * rd cur (3 - 1) + rd below (3 - 1)) * 4 + 7) 4)).
Proof.
  apply (h2v2_last_pixel 2 3 ex_input ex_output 0); [reflexivity | lia].
Defined.

(** On the known vector (width 3, rows [10,20,30], [40,50,60], [70,80,90])
    the kernel stores 35 at index 1 of the top row, where the formula as
    stated gives [(3*170 + 130 + 7) >> 4 = 40]. *)
Lemma h2v2_interior_as_stated_fails :
  ~ h2v2_interior_as_stated 2 3 ex_input ex_output 0 1.
Proof.
  intros (out' & above & cur & below & top & bot &
          E & Ea & Ec & Eb & Et & Ebt & H1 & _).
  vm_compute in E. injection E as <-.
  vm_compute in Ea, Ec, Et.
  injection Ea as <-. injection Ec as <-. injection Et as <-.
  vm_compute in H1. discriminate H1.
Qed.

(** C1, amended. In the h2v2 kernel, for every input row [i] and every
    column boundary [1 <= c < w], with
    [s0colsum0 = 3*in[i][c-1] + in[i-1][c-1]] and
    [s1colsum0 = 3*in[i][c] + in[i-1][c]], the outputs are
    [out_top[2c-1] = (3*s0colsum0 + s1colsum0 + 7) >> 4] and
    [out_top[2c] = (3*s1colsum0 + s0colsum0 + 8) >> 4]: each pixel takes
    three parts of the column it lies in and one part of the neighbouring
    column.  The bottom row is the same with [in[i+1]] for [in[i-1]]. *)
Theorem h2v2_interior_pixels max w input output i c :
  valid_h2v2 max w input output = true ->
  0 <= 2 * i < max ->
  1 <= c < w ->
  row_pair (jsimd_h2v2_fancy_upsample_neon max w input output) input i
    (fun above cur below top bot =>
       let s0colsum0 := 3 * rd cur (c - 1) + rd above (c - 1) in
       let s1colsum0 := 3 * rd cur c + rd above c in
       let s0colsum1 := 3 * rd cur (c - 1) + rd below (c - 1) in
       let s1colsum1 := 3 * rd cur c + rd below c in
       load top (2 * c - 1)
       = Some (Z.shiftr (3 * s0colsum0 + s1colsum0 + 7) 4) /\
       load top (2 * c)
       = Some (Z.shiftr (3 * s1colsum0 + s0colsum0 + 8) 4) /\
       load bot (2 * c - 1)
       = Some (Z.shiftr (3 * s0colsum1 + s1colsum1 + 7) 4) /\
       load bot (2 * c)
       = Some (Z.shiftr (3 * s1colsum1 + s0colsum1 + 8) 4)).
Proof.
  intros Hv Hi Hc. eapply row_pair_mono; [|apply (h2v2_rows _ _ _ _ _ Hv Hi)].
  intros above cur below top bot (_ & _ & _ & Lt & Lb & R).
  destruct (R (2 * c - 1) ltac:(lia)) as [Rt1 Rb1].
  destruct (R (2 * c) ltac:(lia)) as [Rt2 Rb2].
  rewrite scalar_pixel_odd in Rt1, Rb1 by lia.
  rewrite scalar_pixel_even in Rt2, Rb2 by lia.
  cbv zeta. repeat split; apply load_of_rd; try lia; assumption.
Qed.

Lemma h2v2_interior_pixels_witness :
  row_pair (jsimd_h2v2_fancy_upsample_neon 2 3 ex_input ex_output)
    ex_input 0
    (fun above cur below top bot =>
       let s0colsum0 := 3 * rd cur (1 - 1) + rd above (1 - 1) in
       let s1colsum0 := 3 * rd cur 1 + rd above 1 in
       let s0colsum1 := 3 * rd cur (1 - 1) + rd below (1 - 1) in
       let s1colsum1 := 3 * rd cur 1 + rd below 1 in
       load top (2 * 1 - 1)
       = Some (Z.shiftr (3 * s0colsum0 + s1colsum0 + 7) 4) /\
       load top (2 * 1)
       = Some (Z.shiftr (3 * s1colsum0 + s0colsum0 + 8) 4) /\
       load bot (2 * 1 - 1)
       = Some (Z.shiftr (3 * s0colsum1 + s1colsum1 + 7) 4) /\
       load bot (2 * 1)
       = Some (Z.shiftr (3 * s1colsum1 + s0colsum1 + 8) 4)).
Proof.
  apply (h2v2_interior_pixels 2 3 ex_input ex_output 0 1);
    [reflexivity | lia | lia].
Defined.

(** C5. In the h1v2 kernel, for every input row [i] and every column
    [0 <= c < w], [out_top[c] = (3*in[i][c] + in[i-1][c] + 1) >> 2] and
    [out_bottom[c] = (3*in[i][c] + in[i+1][c] + 2) >> 2]; the first and the
    last column are no exception. *)
Theorem h1v2_pixels max w input output i c :
  valid_h1v2 max w input output = true ->
  0 <= 2 * i < max ->
  0 <= c < w ->
  row_pair (jsimd_h1v2_fancy_upsample_neon max w input output) input i
    (fun above cur below top bot =>
       load top c = Some (Z.shiftr (3 * rd cur c + rd above c + 1) 2) /\
       load bot c = Some (Z.shiftr (3 * rd cur c + rd below c + 2) 2)).
Proof.
  intros Hv Hi Hc. eapply row_pair_mono; [|apply (h1v2_rows _ _ _ _ _ Hv Hi)].
  intros above cur below top bot (_ & _ & _ & Lt & Lb & R).
  destruct (R c Hc) as [Rt Rb].
  split; apply load_of_rd; try lia; assumption.
Qed.

Lemma h1v2_pixels_witness :
  row_pair (jsimd_h1v2_fancy_upsample_neon 2 3 ex_input ex_output)
    ex_input 0
    (fun above cur below top bot =>
       load top 2 = Some (Z.shiftr (3 * rd cur 2 + rd above 2 + 1) 2) /\
       load bot 2 = Some (Z.shiftr (3 * rd cur 2 + rd below 2 + 2) 2)).
Proof.
  apply (h1v2_pixels 2 3 ex_input ex_output 0 2); [reflexivity | lia | lia].
Defined.

(** C6. For a width of 1 the two logical pixels of each output row are the
    boundary values: index 0 holds the first-pixel value (bias 8) and index
    1 the last-pixel value (bias 7) of the single column; the vector block
    does store its interior value [vec_pixel _ _ 1] at index 1, and the
    last-pixel store replaces it. *)
Theorem h2v2_width_one max input output i :
  valid_h2v2 max 1 input output = true ->
  0 <= 2 * i < max ->
  row_pair (jsimd_h2v2_fancy_upsample_neon max 1 input output) input i
    (fun above cur below top bot =>
       load top 0 = Some (Z.shiftr ((3 * rd cur 0 + rd above 0) * 4 + 8) 4) /\
       load top 1 = Some (Z.shiftr ((3 * rd cur 0 + rd above 0) * 4 + 7) 4) /\
       load bot 0 = Some (Z.shiftr ((3 * rd cur 0 + rd below 0) * 4 + 8) 4) /\
       load bot 1 = Some (Z.shiftr ((3 * rd cur 0 + rd below 0) * 4 + 7) 4) /\
       forall o0 o1, 33 <= len o0 -> 33 <= len o1 ->
         exists b0 b1,
           h2v2_block 0 1 1 above cur below o0 o1 = Some (b0, b1) /\
           load b0 1 = Some (vec_pixel above cur 1) /\
           load b1 1 = Some (vec_pixel below cur 1)).
Proof.
  intros Hv Hi. eapply row_pair_mono; [|apply (h2v2_rows _ _ _ _ _ Hv Hi)].
  intros above cur below top bot (Ga & Gc & Gb & Lt & Lb & R).
  destruct (R 0 ltac:(lia)) as [Rt0 Rb0].
  destruct (R 1 ltac:(lia)) as [Rt1 Rb1].
  repeat split; try (apply load_of_rd; try lia; assumption).
  intros o0 o1 Lo0 Lo1.
  apply good_in_h2v2_elim in Ga as (La & _).
  apply good_in_h2v2_elim in Gc as (Lc & _).
  apply good_in_h2v2_elim in Gb as (Lbl & _).
  destruct (h2v2_block_spec 1 above cur below o0 o1)
    as (b0 & b1 & E & L0 & L1 & R0 & R1); try lia.
  exists b0, b1. split; [exact E|].
  split; apply load_of_rd; try lia.
  - now rewrite R0 by lia.
  - now rewrite R1 by lia.
Qed.

Lemma h2v2_width_one_witness :
  row_pair (jsimd_h2v2_fancy_upsample_neon 2 1 ex_input ex_output)
    ex_input 0
    (fun above cur below top bot =>
       load top 0 = Some (Z.shiftr ((3 * rd cur 0 + rd above 0) * 4 + 8) 4) /\
       load top 1 = Some (Z.shiftr ((3 * rd cur 0 + rd above 0) * 4 + 7) 4) /\
       load bot 0 = Some (Z.shiftr ((3 * rd cur 0 + rd below 0) * 4 + 8) 4) /\
       load bot 1 = Some (Z.shiftr ((3 * rd cur 0 + rd below 0) * 4 + 7) 4) /\
       forall o0 o1, 33 <= len o0 -> 33 <= len o1 ->
         exists b0 b1,
           h2v2_block 0 1 1 above cur below o0 o1 = Some (b0, b1) /\
           load b0 1 = Some (vec_pixel above cur 1) /\
           load b1 1 = Some (vec_pixel below cur 1)).
Proof.
  apply (h2v2_width_one 2 ex_input ex_output 0); [reflexivity | lia].
Defined.

(** ** Flat input *)

Lemma flat_row_rd w v r c :
  flat_row w v r = true -> 0 <= c < w -> rd r c = v.
Proof.
  intros H Hc. unfold flat_row in H.
  apply Z.eqb_eq. apply (forallb_zrange _ _ _ H). lia.
Qed.

Lemma flat_window_elim w v input i above cur below :
  flat_window w v input i = true ->
  row_get input (i - 1) = Some above -> row_get input i = Some cur ->
  row_get input (i + 1) = Some below ->
  flat_row w v above = true /\ flat_row w v cur = true /\
  flat_row w v below = true.
Proof.
  unfold flat_window, row_ok. intros H Ea Ec Eb.
  rewrite Ea, Ec, Eb in H. rewrite !andb_true_iff in H. tauto.
Qed.

Lemma flat_h2v2_pixel w v far near j :
  flat_row w v far = true -> flat_row w v near = true ->
  0 <= j < 2 * w ->
  h2v2_scalar_pixel w far near j = v.
Proof.
  intros Hf Hn Hj.
  assert (forall c, 0 <= c < w -> colsum far near c = 4 * v) as Hc.
  { intros c Hc. unfold colsum.
    rewrite (flat_row_rd w v far c), (flat_row_rd w v near c) by trivial.
    lia. }
  unfold h2v2_scalar_pixel, h2v2_first, h2v2_last, h2v2_odd, h2v2_even.
  rewrite !shiftr4.
  destruct (Z.eqb_spec j 0); [rewrite Hc by lia; zdiv|].
  destruct (Z.eqb_spec j (2 * w - 1)); [rewrite Hc by lia; zdiv|].
  rewrite odd_mod2.
  destruct (Z.eqb_spec (j mod 2) 1); rewrite !Hc by zdiv; zdiv.
Qed.

Lemma flat_h1v2_pixel w v far near c :
  flat_row w v far = true -> flat_row w v near = true ->
  0 <= c < w ->
  h1v2_top far near c = v /\ h1v2_bottom far near c = v.
Proof.
  intros Hf Hn Hc. unfold h1v2_top, h1v2_bottom, colsum.
  rewrite (flat_row_rd w v far c), (flat_row_rd w v near c) by trivial.
  rewrite !shiftr2. split; zdiv.
Qed.

Lemma row_pair_input result input i P :
  row_pair result input i P ->
  row_pair result input i
    (fun above cur below top bot =>
       row_get input (i - 1) = Some above /\ row_get input i = Some cur /\
       row_get input (i + 1) = Some below /\ P above cur below top bot).
Proof.
  intros (out' & above & cur & below & top & bot & H).
  exists out', above, cur, below, top, bot. intuition.
Qed.

(** C7. For both kernels, if every sample of the three context rows of
    input row [i] equals [v], then every pixel of the two produced rows
    equals [v], for every width and every even row-group size. *)
Theorem flat_input_stays_flat
  max w input output i v j max' w' input' output' i' v' c :
  valid_h2v2 max w input output = true ->
  flat_window w v input i = true ->
  0 <= 2 * i < max ->
  0 <= j < 2 * w ->
  valid_h1v2 max' w' input' output' = true ->
  flat_window w' v' input' i' = true ->
  0 <= 2 * i' < max' ->
  0 <= c < w' ->
  row_pair (jsimd_h2v2_fancy_upsample_neon max w input output) input i
    (fun above cur below top bot =>
       load top j = Some v /\ load bot j = Some v) /\
  row_pair (jsimd_h1v2_fancy_upsample_neon max' w' input' output') input' i'
    (fun above cur below top bot =>
       load top c = Some v' /\ load bot c = Some v').
Proof.
  intros Hv Hflat Hi Hj Hv' Hflat' Hi' Hc. split.
  - eapply row_pair_mono;
      [|apply row_pair_input, (h2v2_rows _ _ _ _ _ Hv Hi)].
    intros above cur below top bot
      (Ea & Ec & Eb & _ & _ & _ & Lt & Lb & R).
    destruct (flat_window_elim _ _ _ _ _ _ _ Hflat Ea Ec Eb)
      as (Fa & Fc & Fb).
    destruct (R j Hj) as [Rt Rb].
    rewrite (flat_h2v2_pixel w v) in Rt, Rb by trivial.
    split; apply load_of_rd; try lia; assumption.
  - eapply row_pair_mono;
      [|apply row_pair_input, (h1v2_rows _ _ _ _ _ Hv' Hi')].
    intros above cur below top bot
      (Ea & Ec & Eb & _ & _ & _ & Lt & Lb & R).
    destruct (flat_window_elim _ _ _ _ _ _ _ Hflat' Ea Ec Eb)
      as (Fa & Fc & Fb).
    destruct (R c Hc) as [Rt Rb].
    destruct (flat_h1v2_pixel w' v' above cur c Fa Fc Hc) as [Tt _].
    destruct (flat_h1v2_pixel w' v' below cur c Fb Fc Hc) as [_ Tb].
    rewrite Tt in Rt. rewrite Tb in Rb.
    split; apply load_of_rd; try lia; assumption.
Qed.

Lemma flat_input_stays_flat_witness :
  row_pair (jsimd_h2v2_fancy_upsample_neon 2 3 ex_flat_input ex_output)
    ex_flat_input 0
    (fun above cur below top bot =>
       load top 4 = Some 200 /\ load bot 4 = Some 200) /\
  row_pair (jsimd_h1v2_fancy_upsample_neon 2 3 ex_flat_input ex_output)
    ex_flat_input 0
    (fun above cur below top bot =>
       load top 1 = Some 200 /\ load bot 1 = Some 200).
Proof.
  apply (flat_input_stays_flat 2 3 ex_flat_input ex_output 0 200 4
                               2 3 ex_flat_input ex_output 0 200 1);
    solve [reflexivity | lia].
Defined.

(** ** Agreement with the scalar reference *)

Lemma firstn_eq_map (buf : JSAMPROW) (f : Z -> Z) (n : Z) :
  0 <= n <= len buf ->
  (forall j, 0 <= j < n -> rd buf j = f j) ->
  firstn (Z.to_nat n) buf = map f (zrange 0 (Z.to_nat n)).
Proof.
  intros Hn H. unfold len in Hn.
  rewrite <- (skipn_O buf) at 1.
  rewrite firstn_skipn_nth by lia.
  unfold zrange. rewrite map_map.
  apply map_ext_in. intros k Hk. apply in_seq in Hk.
  rewrite <- H by lia. unfold rd. f_equal. lia.
Qed.

(** On the known vector the kernel's top row begins [33; 35; 40; 45; 50;
    52], the reference worded by the specification gives [33; 40; 35; 50;
    45; 52]. *)
Lemma matches_spec_scalar_fails :
  ~ matches_scalar SpecScalar.h2v2_row 2 3 ex_input ex_output 0
                   2 3 ex_input ex_output 0.
Proof.
  intros [(out' & above & cur & below & top & bot &
           E & Ea & Ec & Eb & Et & Ebt & H1 & _) _].
  vm_compute in E. injection E as <-.
  vm_compute in Ea, Ec, Et.
  injection Ea as <-. injection Ec as <-. injection Et as <-.
  vm_compute in H1. discriminate H1.
Qed.

(** C2, amended. For every valid call, of any width and any even row-group
    size, the logical prefixes of the rows the vectorized kernels produce
    ([2w] samples for h2v2, [w] for h1v2) are identical to the rows of a
    scalar reference that applies the first-pixel, last-pixel and h1v2
    formulas of the specification and, at interior h2v2 indices, the
    formulas [out[2c-1] = (3*s0colsum + s1colsum + 7) >> 4] and
    [out[2c] = (3*s1colsum + s0colsum + 8) >> 4]. *)
Theorem kernels_match_scalar max w input output i max' w' input' output' i' :
  valid_h2v2 max w input output = true ->
  0 <= 2 * i < max ->
  valid_h1v2 max' w' input' output' = true ->
  0 <= 2 * i' < max' ->
  matches_scalar h2v2_scalar_row max w input output i
                 max' w' input' output' i'.
Proof.
  intros Hv Hi Hv' Hi'. split.
  - eapply row_pair_mono; [|apply (h2v2_rows _ _ _ _ _ Hv Hi)].
    intros above cur below top bot (_ & _ & _ & Lt & Lb & R).
    apply valid_h2v2_width in Hv.
    split; apply firstn_eq_map; try lia; intros j Hj; now apply R.
  - eapply row_pair_mono; [|apply (h1v2_rows _ _ _ _ _ Hv' Hi')].
    intros above cur below top bot (_ & _ & _ & Lt & Lb & R).
    apply valid_h1v2_width in Hv'.
    split; apply firstn_eq_map; try lia; intros j Hj;
      destruct (R j Hj) as [Rt Rb]; assumption.
Qed.

Lemma kernels_match_scalar_witness :
  matches_scalar h2v2_scalar_row 2 3 ex_input ex_output 0
                 2 3 ex_input ex_output 0.
Proof.
  apply (kernels_match_scalar 2 3 ex_input ex_output 0
                              2 3 ex_input ex_output 0);
    solve [reflexivity | lia].
Defined.

(** * Further properties of the kernels *)

(** ** Which rows of the output table a call touches *)

Lemma row_get_none_set a k k' r :
  row_get a k = None -> row_get (row_set a k' r) k = None.
Proof.
  unfold row_get, row_set. simpl.
  destruct (0 <=? tbl_origin a + k); [|reflexivity].
  rewrite !nth_error_None, length_update. trivial.
Qed.

Lemma row_loop_frame body max input : forall fuel inrow i0 cur out',
  row_loop body fuel inrow (2 * i0) max input cur = Some out' ->
  tbl_origin out' = tbl_origin cur /\
  length (tbl_rows out') = length (tbl_rows cur) /\
  forall k, k < 2 * i0 \/ max <= 2 * (k / 2) ->
            row_get out' k = row_get cur k.
Proof.
  induction fuel as [|fuel IH]; intros inrow i0 cur out'; cbn [row_loop];
    destruct (Z.ltb_spec (2 * i0) max) as [Hlt | Hge];
    try discriminate;
    try (intros [= <-]; repeat split; reflexivity).
  destruct (row_get input (inrow - 1)) as [in0|]; [|discriminate].
  destruct (row_get input inrow) as [in1|]; [|discriminate].
  destruct (row_get input (inrow + 1)) as [in2|]; [|discriminate].
  cbn [bind].
  destruct (row_get cur (2 * i0)) as [o0|] eqn:Eo0; [|discriminate].
  destruct (row_get cur (2 * i0 + 1)) as [o1|] eqn:Eo1; [|discriminate].
  cbn [bind].
  destruct (body in0 in1 in2 o0 o1) as [[t b]|]; [|discriminate].
  cbn [bind]. replace (2 * i0 + 2) with (2 * (i0 + 1)) by lia.
  intros H. apply IH in H as (Ho & Hl & Hk).
  assert (row_get (row_set cur (2 * i0) t) (2 * i0 + 1) = Some o1) as Eo1'.
  { rewrite (row_get_set_neq _ _ _ _ _ Eo0) by lia. exact Eo1. }
  split; [exact Ho|]. split.
  - rewrite Hl. cbn [row_set tbl_rows]. now rewrite !length_update.
  - intros k Hcond. rewrite Hk by zdiv.
    rewrite (row_get_set_neq _ _ _ _ _ Eo1') by zdiv.
    apply (row_get_set_neq _ _ _ _ _ Eo0). zdiv.
Qed.

(** X1. Whenever the h2v2 kernel returns, the output table has its
    origin and its number of rows, and every row outside the pairs the
    loop visited (a row [k] with [k < 0] or [max_v_samp_factor <=
    2*(k/2)]) is the row it was. *)
Theorem h2v2_untouched_rows max w input output out' :
  jsimd_h2v2_fancy_upsample_neon max w input output = Some out' ->
  tbl_origin out' = tbl_origin output /\
  length (tbl_rows out') = length (tbl_rows output) /\
  forall k, k < 0 \/ max <= 2 * (k / 2) ->
            row_get out' k = row_get output k.
Proof.
  unfold jsimd_h2v2_fancy_upsample_neon. intros H.
  change 0 with (2 * 0) in H at 2.
  apply row_loop_frame in H as (Ho & Hl & Hk).
  split; [exact Ho|]. split; [exact Hl|]. exact Hk.
Qed.

Lemma h2v2_untouched_rows_witness :
  exists out',
    jsimd_h2v2_fancy_upsample_neon 2 3 ex_input ex_output3 = Some out' /\
    tbl_origin out' = tbl_origin ex_output3 /\
    length (tbl_rows out') = length (tbl_rows ex_output3) /\
    forall k, k < 0 \/ 2 <= 2 * (k / 2) ->
              row_get out' k = row_get ex_output3 k.
Proof.
  eexists. split; [vm_compute; reflexivity|].
  apply (h2v2_untouched_rows 2 3 ex_input ex_output3). reflexivity.
Defined.

(** X2. The same for the h1v2 kernel. *)
Theorem h1v2_untouched_rows max w input output out' :
  jsimd_h1v2_fancy_upsample_neon max w input output = Some out' ->
  tbl_origin out' = tbl_origin output /\
  length (tbl_rows out') = length (tbl_rows output) /\
  forall k, k < 0 \/ max <= 2 * (k / 2) ->
            row_get out' k = row_get output k.
Proof.
  unfold jsimd_h1v2_fancy_upsample_neon. intros H.
  change 0 with (2 * 0) in H at 2.
  apply row_loop_frame in H as (Ho & Hl & Hk).
  split; [exact Ho|]. split; [exact Hl|]. exact Hk.
Qed.

Lemma h1v2_untouched_rows_witness :
  exists out',
    jsimd_h1v2_fancy_upsample_neon 2 3 ex_input ex_output3 = Some out' /\
    tbl_origin out' = tbl_origin ex_output3 /\
    length (tbl_rows out') = length (tbl_rows ex_output3) /\
    forall k, k < 0 \/ 2 <= 2 * (k / 2) ->
              row_get out' k = row_get ex_output3 k.
Proof.
  eexists. split; [vm_compute; reflexivity|].
  apply (h1v2_untouched_rows 2 3 ex_input ex_output3). reflexivity.
Defined.

(** ** Rows the caller must supply *)

Lemma row_loop_missing_output body max input k : forall fuel inrow i0 cur,
  2 * i0 <= k -> 2 * (k / 2) < max -> row_get cur k = None ->
  row_loop body fuel inrow (2 * i0) max input cur = None.
Proof.
  induction fuel as [|fuel IH]; intros inrow i0 cur Hk Hmax Hnone;
    cbn [row_loop];
    (destruct (Z.ltb_spec (2 * i0) max) as [Hlt | Hge]; [|zdiv]);
    [reflexivity|].
  destruct (row_get input (inrow - 1)) as [in0|]; [|reflexivity].
  destruct (row_get input inrow) as [in1|]; [|reflexivity].
  destruct (row_get input (inrow + 1)) as [in2|]; [|reflexivity].
  cbn [bind].
  destruct (row_get cur (2 * i0)) as [o0|] eqn:Eo0; [|reflexivity].
  destruct (row_get cur (2 * i0 + 1)) as [o1|] eqn:Eo1; [|reflexivity].
  cbn [bind].
  destruct (body in0 in1 in2 o0 o1) as [[t b]|]; [|reflexivity].
  cbn [bind]. replace (2 * i0 + 2) with (2 * (i0 + 1)) by lia.
  assert (k <> 2 * i0) by congruence.
  assert (k <> 2 * i0 + 1) by congruence.
  apply IH; try zdiv.
  now apply row_get_none_set, row_get_none_set.
Qed.

Lemma row_loop_missing_input body max input k : forall fuel i0 cur,
  2 * i0 < max -> i0 - 1 <= k -> 2 * (k - 1) < max ->
  row_get input k = None ->
  row_loop body fuel i0 (2 * i0) max input cur = None.
Proof.
  induction fuel as [|fuel IH]; intros i0 cur Hlt Hk Hmax Hnone;
    cbn [row_loop];
    (destruct (Z.ltb_spec (2 * i0) max); [|lia]); [reflexivity|].
  destruct (row_get input (i0 - 1)) as [in0|] eqn:E0; [|reflexivity].
  destruct (row_get input i0) as [in1|] eqn:E1; [|reflexivity].
  destruct (row_get input (i0 + 1)) as [in2|] eqn:E2; [|reflexivity].
  cbn [bind].
  destruct (row_get cur (2 * i0)) as [o0|]; [|reflexivity].
  destruct (row_get cur (2 * i0 + 1)) as [o1|]; [|reflexivity].
  cbn [bind].
  destruct (body in0 in1 in2 o0 o1) as [[t b]|]; [|reflexivity].
  cbn [bind]. replace (2 * i0 + 2) with (2 * (i0 + 1)) by lia.
  assert (k <> i0 - 1) by congruence.
  assert (k <> i0) by congruence.
  assert (k <> i0 + 1) by congruence.
  apply IH; trivial; lia.
Qed.

(** X3. Output rows are taken in pairs: both kernels fail when an output
    row [k >= 0] of a pair that starts below [max_v_samp_factor] is
    missing, so an odd [max_v_samp_factor] needs the row
    [output_data[max_v_samp_factor]] as well. *)
Theorem missing_output_row_faults max w input output k :
  0 <= k -> 2 * (k / 2) < max -> row_get output k = None ->
  jsimd_h2v2_fancy_upsample_neon max w input output = None /\
  jsimd_h1v2_fancy_upsample_neon max w input output = None.
Proof.
  intros Hk Hmax Hnone.
  unfold jsimd_h2v2_fancy_upsample_neon, jsimd_h1v2_fancy_upsample_neon.
  split.
  - change 0 with (2 * 0) at 2.
    apply (row_loop_missing_output _ max input k); trivial; lia.
  - change 0 with (2 * 0) at 2.
    apply (row_loop_missing_output _ max input k); trivial; lia.
Qed.

Lemma missing_output_row_faults_witness :
  jsimd_h2v2_fancy_upsample_neon 3 3 ex_input4 ex_output3 = None /\
  jsimd_h1v2_fancy_upsample_neon 3 3 ex_input4 ex_output3 = None.
Proof.
  apply (missing_output_row_faults 3 3 ex_input4 ex_output3 3);
    solve [reflexivity | lia].
Defined.

(** X4. Both kernels fail when one of the context rows
    [input_data[-1 .. ceil(max_v_samp_factor/2)]] is missing: the row above
    the first and the row below the last row of the group are read like
    the rows in between. *)
Theorem missing_context_row_faults max w input output k :
  0 < max -> -1 <= k -> 2 * (k - 1) < max -> row_get input k = None ->
  jsimd_h2v2_fancy_upsample_neon max w input output = None /\
  jsimd_h1v2_fancy_upsample_neon max w input output = None.
Proof.
  intros Hpos Hk Hmax Hnone.
  unfold jsimd_h2v2_fancy_upsample_neon, jsimd_h1v2_fancy_upsample_neon.
  split.
  - change 0 with (2 * 0) at 2.
    apply (row_loop_missing_input _ max input k); trivial; lia.
  - change 0 with (2 * 0) at 2.
    apply (row_loop_missing_input _ max input k); trivial; lia.
Qed.

Lemma missing_context_row_faults_witness :
  jsimd_h2v2_fancy_upsample_neon 4 3 ex_input ex_output3 = None /\
  jsimd_h1v2_fancy_upsample_neon 4 3 ex_input ex_output3 = None.
Proof.
  apply (missing_context_row_faults 4 3 ex_input ex_output3 2);
    solve [reflexivity | lia].
Defined.

(** ** How far into the padding the stores reach *)

Lemma round_up16_min w : 1 <= w -> 16 <= round_up16 w.
Proof. unfold round_up16. intros. zdiv. Qed.

Lemma h2v2_cols_tail (w : Z) (in0 in1 in2 : JSAMPROW) :
  w < 2147483648 ->
  round_up16 w <= len in0 -> round_up16 w <= len in1 ->
  round_up16 w <= len in2 ->
  forall (fuel : nat) (colctr : Z) (o0 o1 o0' o1' : JSAMPROW),
    16 <= colctr -> colctr mod 16 = 0 ->
    2 * round_up16 w <= len o0 -> 2 * round_up16 w <= len o1 ->
    h2v2_cols fuel colctr w in0 in1 in2 o0 o1 = Some (o0', o1') ->
    forall j, 2 * Z.max colctr (round_up16 w) - 1 <= j ->
      rd o0' j = rd o0 j /\ rd o1' j = rd o1 j.
Proof.
  intros Hw H0 H1 H2.
  induction fuel as [|fuel IH];
    intros colctr o0 o1 o0' o1' Hc Hm Ho0 Ho1; cbn [h2v2_cols];
    destruct (Z.ltb_spec colctr w) as [Hlt | Hge];
    try discriminate; try (intros [= <- <-]; auto).
  pose proof (round_up16_step colctr w ltac:(lia) Hm Hlt) as Hr.
  replace (u32 (2 * colctr)) with (2 * colctr)
    by (unfold u32; rewrite Z.mod_small; lia).
  replace (u32 (colctr + 16)) with (colctr + 16)
    by (unfold u32; rewrite Z.mod_small; lia).
  destruct (h2v2_block_spec colctr in0 in1 in2 o0 o1)
    as (a0 & a1 & E & La0 & La1 & Ra0 & Ra1); try lia.
  rewrite E. cbn [bind]. intros Hcols j Hj.
  destruct (IH (colctr + 16) a0 a1 o0' o1') with (j := j)
    as [R0 R1]; try lia; trivial.
  { rewrite <- Zplus_mod_idemp_l, Hm. reflexivity. }
  rewrite R0, R1, Ra0, Ra1 by lia.
  replace ((2 * colctr - 1 <=? j) && (j <? 2 * colctr + 31)) with false
    by (symmetry; apply andb_false_iff; right; apply Z.ltb_ge; lia).
  auto.
Qed.

Lemma h2v2_row_tail_aux w in0 in1 in2 o0 o1 top bot :
  1 <= w < 2147483648 ->
  good_in_h2v2 w in0 = true -> good_in_h2v2 w in1 = true ->
  good_in_h2v2 w in2 = true ->
  good_out_h2v2 w o0 = true -> good_out_h2v2 w o1 = true ->
  h2v2_row w in0 in1 in2 o0 o1 = Some (top, bot) ->
  forall j, Z.max 33 (2 * round_up16 w) <= j ->
    rd top j = rd o0 j /\ rd bot j = rd o1 j.
Proof.
  intros Hw G0 G1 G2 Go0 Go1 E j Hj.
  apply good_in_h2v2_elim in G0 as (L0 & C0 & B0).
  apply good_in_h2v2_elim in G1 as (L1 & C1 & B1).
  apply good_in_h2v2_elim in G2 as (L2 & C2 & B2).
  apply good_out_h2v2_elim in Go0 as (Lo0 & Co0).
  apply good_out_h2v2_elim in Go1 as (Lo1 & Co1).
  pose proof (round_up16_ge w) as Hr.
  pose proof (round_up16_min w ltac:(lia)) as Hr16.
  unfold h2v2_row in E.
  rewrite !(load_rd _ 0) in E by lia. cbn [bind] in E.
  destruct (store_ok o0 0
              (to_JSAMPLE (Z.shiftr ((GETJSAMPLE (rd in1 0) * 3
                                      + GETJSAMPLE (rd in0 0)) * 4 + 8) 4)))
    as (a0 & Ea0 & La0 & Ra0); [lia|].
  destruct (store_ok o1 0
              (to_JSAMPLE (Z.shiftr ((GETJSAMPLE (rd in1 0) * 3
                                      + GETJSAMPLE (rd in2 0)) * 4 + 8) 4)))
    as (a1 & Ea1 & La1 & Ra1); [lia|].
  rewrite Ea0 in E. cbn [bind] in E. rewrite Ea1 in E. cbn [bind] in E.
  destruct (h2v2_block_spec 1 in0 in1 in2 a0 a1)
    as (b0 & b1 & Eb & Lb0 & Lb1 & Rb0 & Rb1); try lia.
  change (h2v2_block (1 - 1) 1 (2 * 1 - 1)) with (h2v2_block 0 1 1) in Eb.
  rewrite Eb in E. cbn [bind] in E.
  destruct (h2v2_cols_spec w in0 in1 in2 ltac:(lia) C0 C1 C2
              (Z.to_nat w) 16 b0 b1)
    as (c0 & c1 & Ec & [Lc0 _] & [Lc1 _]); try lia; [reflexivity|].
  destruct (h2v2_cols_tail w in0 in1 in2 ltac:(lia) C0 C1 C2
              (Z.to_nat w) 16 b0 b1 c0 c1) with (j := j)
    as [Rc0 Rc1]; try lia; trivial.
  rewrite Ec in E. cbn [bind] in E.
  replace (u32 (w - 1)) with (w - 1) in E
    by (unfold u32; rewrite Z.mod_small; lia).
  replace (u32 (2 * w - 1)) with (2 * w - 1) in E
    by (unfold u32; rewrite Z.mod_small; lia).
  rewrite !(load_rd _ (w - 1)) in E by lia. cbn [bind] in E.
  destruct (store_ok c0 (2 * w - 1)
              (to_JSAMPLE (Z.shiftr ((GETJSAMPLE (rd in1 (w - 1)) * 3
                             + GETJSAMPLE (rd in0 (w - 1))) * 4 + 7) 4)))
    as (d0 & Ed0 & Ld0 & Rd0); [lia|].
  destruct (store_ok c1 (2 * w - 1)
              (to_JSAMPLE (Z.shiftr ((GETJSAMPLE (rd in1 (w - 1)) * 3
                             + GETJSAMPLE (rd in2 (w - 1))) * 4 + 7) 4)))
    as (d1 & Ed1 & Ld1 & Rd1); [lia|].
  rewrite Ed0 in E. cbn [bind] in E. rewrite Ed1 in E. cbn [bind] in E.
  injection E as <- <-.
  rewrite Rd0, Rd1, Rc0, Rc1, Rb0, Rb1, Ra0, Ra1 by lia.
  replace (j =? 2 * w - 1) with false by (symmetry; apply Z.eqb_neq; lia).
  replace ((2 * 1 - 1 <=? j) && (j <? 2 * 1 + 31)) with false
    by (symmetry; apply andb_false_iff; right; apply Z.ltb_ge; lia).
  replace (j =? 0) with false by (symmetry; apply Z.eqb_neq; lia).
  auto.
Qed.

(** X5. On valid rows the h2v2 row body keeps the capacity of both output
    rows and changes no byte from index [max 33 (2 * round_up16 w)] on:
    the vector stores run past the [2w] logical pixels, but only up to the
    next multiple of 32 (and never less than 33 bytes). *)
Theorem h2v2_row_tail w in0 in1 in2 o0 o1 :
  1 <= w < 2147483648 ->
  good_in_h2v2 w in0 = true -> good_in_h2v2 w in1 = true ->
  good_in_h2v2 w in2 = true ->
  good_out_h2v2 w o0 = true -> good_out_h2v2 w o1 = true ->
  exists top bot,
    h2v2_row w in0 in1 in2 o0 o1 = Some (top, bot) /\
    len top = len o0 /\ len bot = len o1 /\
    forall j, Z.max 33 (2 * round_up16 w) <= j ->
      rd top j = rd o0 j /\ rd bot j = rd o1 j.
Proof.
  intros Hw G0 G1 G2 Go0 Go1.
  destruct (h2v2_row_spec w in0 in1 in2 o0 o1 Hw G0 G1 G2 Go0 Go1)
    as (top & bot & E & Lt & Lb & _).
  exists top, bot. repeat split; trivial;
    now apply (h2v2_row_tail_aux w in0 in1 in2 o0 o1 top bot).
Qed.

Lemma h2v2_row_tail_witness :
  exists top bot,
    h2v2_row 3 (pad 32 [10; 20; 30]) (pad 32 [40; 50; 60])
             (pad 32 [70; 80; 90]) (repeat 9 64%nat) (repeat 9 64%nat)
    = Some (top, bot) /\
    len top = len (repeat 9 64%nat) /\ len bot = len (repeat 9 64%nat) /\
    forall j, Z.max 33 (2 * round_up16 3) <= j ->
      rd top j = rd (repeat 9 64%nat) j /\
      rd bot j = rd (repeat 9 64%nat) j.
Proof.
  apply (h2v2_row_tail 3); solve [reflexivity | lia].
Defined.

Lemma h1v2_cols_tail (w : Z) (in0 in1 in2 : JSAMPROW) :
  w <= 4294967280 ->
  round_up16 w <= len in0 -> round_up16 w <= len in1 ->
  round_up16 w <= len in2 ->
  forall (fuel : nat) (colctr : Z) (o0 o1 o0' o1' : JSAMPROW),
    0 <= colctr -> colctr mod 16 = 0 ->
    round_up16 w <= len o0 -> round_up16 w <= len o1 ->
    h1v2_cols fuel colctr w in0 in1 in2 o0 o1 = Some (o0', o1') ->
    forall j, Z.max colctr (round_up16 w) <= j ->
      rd o0' j = rd o0 j /\ rd o1' j = rd o1 j.
Proof.
  intros Hw H0 H1 H2.
  induction fuel as [|fuel IH];
    intros colctr o0 o1 o0' o1' Hc Hm Ho0 Ho1; cbn [h1v2_cols];
    destruct (Z.ltb_spec colctr w) as [Hlt | Hge];
    try discriminate; try (intros [= <- <-]; auto).
  pose proof (round_up16_step colctr w Hc Hm Hlt) as Hr.
  rewrite !vld1q_u8_ok by lia. cbn [bind].
  rewrite h1v2_blend_lanes. unfold vst1q_u8.
  destruct (store_bytes_ok o0 colctr
              (map (fun k => vec_top in0 in1 (colctr + k)) lanes16))
    as (a0 & Ea0 & La0 & Ra0); [lia | rewrite len_map16; lia |].
  destruct (store_bytes_ok o1 colctr
              (map (fun k => vec_bottom in2 in1 (colctr + k)) lanes16))
    as (a1 & Ea1 & La1 & Ra1); [lia | rewrite len_map16; lia |].
  rewrite Ea0. cbn [bind]. rewrite Ea1. cbn [bind].
  replace (u32 (colctr + 16)) with (colctr + 16)
    by (unfold u32; rewrite Z.mod_small; lia).
  intros Hcols j Hj.
  destruct (IH (colctr + 16) a0 a1 o0' o1') with (j := j)
    as [R0 R1]; try lia; trivial.
  { rewrite <- Zplus_mod_idemp_l, Hm. reflexivity. }
  rewrite R0, R1, Ra0, Ra1 by lia. rewrite !len_map16.
  replace ((colctr <=? j) && (j <? colctr + 16)) with false
    by (symmetry; apply andb_false_iff; right; apply Z.ltb_ge; lia).
  auto.
Qed.

(** X6. On valid rows the h1v2 row body keeps the capacity of both output
    rows and changes no byte from index [round_up16 w] on: the last vector
    store ends at the next multiple of 16 after the [w] logical pixels. *)
Theorem h1v2_row_tail w in0 in1 in2 o0 o1 :
  1 <= w <= 4294967280 ->
  good_in_h1v2 w in0 = true -> good_in_h1v2 w in1 = true ->
  good_in_h1v2 w in2 = true ->
  good_out_h1v2 w o0 = true -> good_out_h1v2 w o1 = true ->
  exists top bot,
    h1v2_row w in0 in1 in2 o0 o1 = Some (top, bot) /\
    len top = len o0 /\ len bot = len o1 /\
    forall j, round_up16 w <= j ->
      rd top j = rd o0 j /\ rd bot j = rd o1 j.
Proof.
  intros Hw G0 G1 G2 Go0 Go1.
  destruct (h1v2_row_spec w in0 in1 in2 o0 o1 Hw G0 G1 G2 Go0 Go1)
    as (top & bot & E & Lt & Lb & _).
  exists top, bot. split; [exact E|]. split; [exact Lt|].
  split; [exact Lb|]. intros j Hj.
  apply good_in_h1v2_elim in G0 as (C0 & B0).
  apply good_in_h1v2_elim in G1 as (C1 & B1).
  apply good_in_h1v2_elim in G2 as (C2 & B2).
  unfold good_out_h1v2 in Go0, Go1. apply Z.leb_le in Go0, Go1.
  unfold h1v2_row in E.
  apply (h1v2_cols_tail w in0 in1 in2 ltac:(lia) C0 C1 C2
           (Z.to_nat w) 0 o0 o1 top bot); try lia; trivial.
  pose proof (round_up16_ge w). lia.
Qed.

Lemma h1v2_row_tail_witness :
  exists top bot,
    h1v2_row 3 (pad 32 [10; 20; 30]) (pad 32 [40; 50; 60])
             (pad 32 [70; 80; 90]) (repeat 9 64%nat) (repeat 9 64%nat)
    = Some (top, bot) /\
    len top = len (repeat 9 64%nat) /\ len bot = len (repeat 9 64%nat) /\
    forall j, round_up16 3 <= j ->
      rd top j = rd (repeat 9 64%nat) j /\
      rd bot j = rd (repeat 9 64%nat) j.
Proof.
  apply (h1v2_row_tail 3); solve [reflexivity | lia].
Defined.

(** ** Faults of the h2v2 row body *)

Lemma store_bytes_len buf off bs buf' :
  store_bytes buf off bs = Some buf' -> len buf' = len buf.
Proof.
  intros E. pose proof E as E'. unfold store_bytes in E'.
  destruct ((0 <=? off) && (off + len bs <=? len buf)) eqn:C;
    [|discriminate].
  apply andb_true_iff in C as [C0 C1]. apply Z.leb_le in C0, C1.
  destruct (store_bytes_ok buf off bs C0 C1) as (b & Eb & Lb & _).
  rewrite E in Eb. injection Eb as <-. exact Lb.
Qed.

Lemma store_bytes_short buf off bs :
  len buf < off + len bs -> store_bytes buf off bs = None.
Proof.
  intros H. unfold store_bytes.
  replace (off + len bs <=? len buf) with false
    by (symmetry; apply Z.leb_gt; lia).
  now rewrite andb_false_r.
Qed.

Lemma vld1q_u8_cases buf off :
  vld1q_u8 buf off = None \/
  vld1q_u8 buf off = Some (map (fun k => rd buf (off + k)) lanes16).
Proof.
  destruct (Z.le_gt_cases 0 off), (Z.le_gt_cases (off + 16) (len buf));
    try (right; now apply vld1q_u8_ok);
    left; unfold vld1q_u8;
    destruct (Z.leb_spec 0 off), (Z.leb_spec (off + 16) (len buf));
    try reflexivity; lia.
Qed.

Lemma vld1q_u8_short buf off :
  len buf < off + 16 -> vld1q_u8 buf off = None.
Proof.
  intros H. unfold vld1q_u8.
  replace (off + 16 <=? len buf) with false
    by (symmetry; apply Z.leb_gt; lia).
  now rewrite andb_false_r.
Qed.

Lemma h2v2_blend_len (f0 f1 f2 g0 g1 g2 : Z -> Z) :
  let p := h2v2_blend (map f0 lanes16) (map f1 lanes16) (map f2 lanes16)
                      (map g0 lanes16) (map g1 lanes16) (map g2 lanes16) in
  len (interleave (fst (fst p)) (snd (fst p))) = 32 /\
  len (interleave (fst (snd p)) (snd (snd p))) = 32.
Proof. rewrite lanes16_eq. split; reflexivity. Qed.

Lemma h2v2_block_short_output a b c in0 in1 in2 o0 o1 :
  len o0 < c + 32 \/ len o1 < c + 32 ->
  h2v2_block a b c in0 in1 in2 o0 o1 = None.
Proof.
  intros H. unfold h2v2_block.
  destruct (vld1q_u8_cases in0 a) as [-> | ->]; [reflexivity|].
  destruct (vld1q_u8_cases in1 a) as [-> | ->]; [reflexivity|].
  destruct (vld1q_u8_cases in2 a) as [-> | ->]; [reflexivity|].
  destruct (vld1q_u8_cases in0 b) as [-> | ->]; [reflexivity|].
  destruct (vld1q_u8_cases in1 b) as [-> | ->]; [reflexivity|].
  destruct (vld1q_u8_cases in2 b) as [-> | ->]; [reflexivity|].
  cbn [bind].
  match goal with
  | |- context [h2v2_blend (map ?f0 _) (map ?f1 _) (map ?f2 _)
                           (map ?g0 _) (map ?g1 _) (map ?g2 _)] =>
      pose proof (h2v2_blend_len f0 f1 f2 g0 g1 g2) as [L0 L1]
  end.
  destruct (h2v2_blend _ _ _ _ _ _) as [p0 p1].
  cbn [fst snd] in L0, L1. unfold vst2q_u8.
  destruct H as [H | H].
  - rewrite store_bytes_short by lia. reflexivity.
  - destruct (store_bytes o0 c _); [|reflexivity]. cbn [bind].
    rewrite store_bytes_short by lia. reflexivity.
Qed.

Lemma h2v2_block_short_input a b c in0 in1 in2 o0 o1 :
  len in0 < b + 16 \/ len in1 < b + 16 \/ len in2 < b + 16 ->
  h2v2_block a b c in0 in1 in2 o0 o1 = None.
Proof.
  intros H. unfold h2v2_block.
  destruct (vld1q_u8 in0 a); [|reflexivity].
  destruct (vld1q_u8 in1 a); [|reflexivity].
  destruct (vld1q_u8 in2 a); [|reflexivity]. cbn [bind].
  destruct H as [H | [H | H]]; rewrite (vld1q_u8_short _ b H).
  - reflexivity.
  - destruct (vld1q_u8 in0 b); reflexivity.
  - destruct (vld1q_u8 in0 b); [|reflexivity].
    destruct (vld1q_u8 in1 b); reflexivity.
Qed.

(** X7. Whatever the width, the h2v2 row body fails when an input row has
    fewer than 17 bytes or an output row fewer than 33: the first vector
    block loads [inptr + 1 .. inptr + 16] and stores
    [outptr + 1 .. outptr + 32] before the width is looked at. *)
Theorem h2v2_row_minimum_capacity w in0 in1 in2 o0 o1 :
  len in0 < 17 \/ len in1 < 17 \/ len in2 < 17 \/
  len o0 < 33 \/ len o1 < 33 ->
  h2v2_row w in0 in1 in2 o0 o1 = None.
Proof.
  intros H. unfold h2v2_row.
  destruct (load in1 0); [|reflexivity]. cbn [bind].
  destruct (load in0 0); [|reflexivity]. cbn [bind].
  destruct (store o0 0 _) as [a0|] eqn:Ea0; [|reflexivity]. cbn [bind].
  destruct (load in2 0); [|reflexivity]. cbn [bind].
  destruct (store o1 0 _) as [a1|] eqn:Ea1; [|reflexivity]. cbn [bind].
  apply store_bytes_len in Ea0, Ea1.
  destruct H as [H | [H | [H | H]]];
    [ rewrite h2v2_block_short_input by lia
    | rewrite h2v2_block_short_input by lia
    | rewrite h2v2_block_short_input by lia
    | rewrite h2v2_block_short_output by lia ];
    reflexivity.
Qed.

Lemma h2v2_row_minimum_capacity_witness :
  h2v2_row 1 (pad 32 [10]) (pad 32 [40]) (pad 32 [70])
           (repeat 0 32%nat) (repeat 0 32%nat) = None.
Proof.
  apply (h2v2_row_minimum_capacity 1). do 3 right. left. reflexivity.
Defined.

(** ** Width zero *)

(** X8. With [downsampled_width = 0] the h2v2 row body fails on every row
    buffer of fewer than 2^32 bytes: the last-pixel index
    [downsampled_width - 1] wraps to 4294967295. *)
Theorem h2v2_row_zero_width in0 in1 in2 o0 o1 :
  len in1 < 4294967296 ->
  h2v2_row 0 in0 in1 in2 o0 o1 = None.
Proof.
  intros H. unfold h2v2_row.
  destruct (load in1 0); [|reflexivity]. cbn [bind].
  destruct (load in0 0); [|reflexivity]. cbn [bind].
  destruct (store o0 0 _); [|reflexivity]. cbn [bind].
  destruct (load in2 0); [|reflexivity]. cbn [bind].
  destruct (store o1 0 _); [|reflexivity]. cbn [bind].
  destruct (h2v2_block 0 1 1 _ _ _ _ _) as [[b0 b1]|]; [|reflexivity].
  cbn [bind Z.to_nat h2v2_cols].
  change (16 <? 0) with false. cbn [bind].
  change (u32 (0 - 1)) with 4294967295.
  unfold load at 1.
  replace (4294967295 <? len in1) with false
    by (symmetry; apply Z.ltb_ge; lia).
  reflexivity.
Qed.

Lemma h2v2_row_zero_width_witness :
  h2v2_row 0 (pad 32 [10; 20; 30]) (pad 32 [40; 50; 60])
           (pad 32 [70; 80; 90]) (repeat 0 64%nat) (repeat 0 64%nat) = None.
Proof.
  apply h2v2_row_zero_width. reflexivity.
Defined.

Lemma update_same {A} (l : list A) : forall n x,
  nth_error l n = Some x -> update l n x = l.
Proof.
  induction l as [|h t IH]; destruct n; simpl; intros x E;
    try discriminate.
  - congruence.
  - now rewrite IH.
Qed.

Lemma row_set_same a k r : row_get a k = Some r -> row_set a k r = a.
Proof.
  intros E. unfold row_get in E. unfold row_set.
  destruct (0 <=? tbl_origin a + k); [|discriminate].
  rewrite update_same by exact E. now destruct a.
Qed.

Lemma row_loop_identity body max input :
  (forall in0 in1 in2 o0 o1 t b,
     body in0 in1 in2 o0 o1 = Some (t, b) -> t = o0 /\ b = o1) ->
  forall fuel inrow outrow cur out',
    row_loop body fuel inrow outrow max input cur = Some out' ->
    out' = cur.
Proof.
  intros Hbody.
  induction fuel as [|fuel IH]; intros inrow outrow cur out';
    cbn [row_loop]; destruct (outrow <? max);
    try discriminate; try (now intros [= <-]).
  destruct (row_get input (inrow - 1)) as [in0|]; [|discriminate].
  destruct (row_get input inrow) as [in1|]; [|discriminate].
  destruct (row_get input (inrow + 1)) as [in2|]; [|discriminate].
  cbn [bind].
  destruct (row_get cur outrow) as [o0|] eqn:Eo0; [|discriminate].
  destruct (row_get cur (outrow + 1)) as [o1|] eqn:Eo1; [|discriminate].
  cbn [bind].
  destruct (body in0 in1 in2 o0 o1) as [[t b]|] eqn:Eb; [|discriminate].
  apply Hbody in Eb as [-> ->]. cbn [bind].
  rewrite (row_set_same _ _ _ Eo0), (row_set_same _ _ _ Eo1).
  apply IH.
Qed.

(** X9. With [downsampled_width = 0] the h1v2 kernel stores nothing: when
    it returns, the output table is the one it was given. *)
Theorem h1v2_zero_width max input output out' :
  jsimd_h1v2_fancy_upsample_neon max 0 input output = Some out' ->
  out' = output.
Proof.
  unfold jsimd_h1v2_fancy_upsample_neon.
  apply row_loop_identity.
  intros in0 in1 in2 o0 o1 t b. unfold h1v2_row.
  cbn [Z.to_nat h1v2_cols]. change (0 <? 0) with false.
  now intros [= <- <-].
Qed.

Lemma h1v2_zero_width_witness :
  exists out',
    jsimd_h1v2_fancy_upsample_neon 2 0 ex_input ex_output3 = Some out' /\
    out' = ex_output3.
Proof.
  eexists. split; [vm_compute; reflexivity|].
  apply (h1v2_zero_width 2 ex_input ex_output3). reflexivity.
Defined.

(** ** What the logical pixels depend on *)

Lemma agree_rd w r r' c :
  agree w r r' = true -> 0 <= c < w -> rd r c = rd r' c.
Proof.
  intros H Hc. apply Z.eqb_eq.
  apply (forallb_zrange _ _ _ H). lia.
Qed.

Lemma within_rd lo hi w r c :
  within lo hi w r = true -> 0 <= c < w -> lo <= rd r c <= hi.
Proof.
  intros H Hc.
  assert ((lo <=? rd r c) && (rd r c <=? hi) = true) as B
    by (apply (forallb_zrange _ _ _ H); lia).
  apply andb_true_iff in B as [B0 B1]. apply Z.leb_le in B0, B1. lia.
Qed.

Lemma below_row_rd w r r' c :
  below_row w r r' = true -> 0 <= c < w -> rd r c <= rd r' c.
Proof.
  intros H Hc. apply Z.leb_le.
  apply (forallb_zrange _ _ _ H). lia.
Qed.

(** The pixel at index [j] written from the two column sums it blends. *)
Lemma scalar_pixel_cases w j :
  0 <= j < 2 * w ->
  exists c0 c1 bias,
    0 <= c0 < w /\ 0 <= c1 < w /\ 7 <= bias <= 8 /\
    forall far near,
      h2v2_scalar_pixel w far near j
      = (3 * colsum far near c0 + colsum far near c1 + bias) / 16.
Proof.
  intros Hj. unfold h2v2_scalar_pixel, h2v2_first, h2v2_last, h2v2_odd,
    h2v2_even.
  destruct (Z.eqb_spec j 0).
  { exists 0, 0, 8. do 3 (split; [lia|]). intros far near.
    rewrite shiftr4. f_equal. lia. }
  destruct (Z.eqb_spec j (2 * w - 1)).
  { exists (w - 1), (w - 1), 7. do 3 (split; [lia|]). intros far near.
    rewrite shiftr4. f_equal. lia. }
  rewrite odd_mod2.
  destruct (Z.eqb_spec (j mod 2) 1).
  - exists ((j + 1) / 2 - 1), ((j + 1) / 2), 7.
    do 3 (split; [zdiv|]). intros far near. apply shiftr4.
  - exists (j / 2), (j / 2 - 1), 8.
    do 3 (split; [zdiv|]). intros far near. apply shiftr4.
Qed.

Lemma h2v2_pixel_agree w far near far' near' j :
  agree w far far' = true -> agree w near near' = true ->
  0 <= j < 2 * w ->
  h2v2_scalar_pixel w far near j = h2v2_scalar_pixel w far' near' j.
Proof.
  intros Hf Hn Hj.
  assert (forall c, 0 <= c < w -> colsum far near c = colsum far' near' c)
    as Hc.
  { intros c Hc. unfold colsum.
    now rewrite (agree_rd w far far' c), (agree_rd w near near' c). }
  unfold h2v2_scalar_pixel, h2v2_first, h2v2_last, h2v2_odd, h2v2_even.
  rewrite odd_mod2.
  destruct (Z.eqb_spec j 0); [now rewrite Hc by lia|].
  destruct (Z.eqb_spec j (2 * w - 1)); [now rewrite Hc by lia|].
  destruct (Z.eqb_spec (j mod 2) 1);
    rewrite (Hc (_ - 1)), (Hc (_ / 2)) by zdiv; reflexivity.
Qed.

(** X10. The logical pixels of the h2v2 row body depend on the logical
    samples only: two valid runs whose input rows agree on their first [w]
    samples produce rows that agree on their first [2w] bytes, whatever
    the padding of the input rows and the previous contents of the output
    rows. *)
Theorem h2v2_ignores_padding w in0 in1 in2 o0 o1 in0' in1' in2' o0' o1' :
  1 <= w < 2147483648 ->
  good_in_h2v2 w in0 = true -> good_in_h2v2 w in1 = true ->
  good_in_h2v2 w in2 = true ->
  good_out_h2v2 w o0 = true -> good_out_h2v2 w o1 = true ->
  good_in_h2v2 w in0' = true -> good_in_h2v2 w in1' = true ->
  good_in_h2v2 w in2' = true ->
  good_out_h2v2 w o0' = true -> good_out_h2v2 w o1' = true ->
  agree w in0 in0' = true -> agree w in1 in1' = true ->
  agree w in2 in2' = true ->
  exists top bot top' bot',
    h2v2_row w in0 in1 in2 o0 o1 = Some (top, bot) /\
    h2v2_row w in0' in1' in2' o0' o1' = Some (top', bot') /\
    firstn (Z.to_nat (2 * w)) top = firstn (Z.to_nat (2 * w)) top' /\
    firstn (Z.to_nat (2 * w)) bot = firstn (Z.to_nat (2 * w)) bot'.
Proof.
  intros Hw G0 G1 G2 Go0 Go1 G0' G1' G2' Go0' Go1' A0 A1 A2.
  destruct (h2v2_row_spec w in0 in1 in2 o0 o1 Hw G0 G1 G2 Go0 Go1)
    as (top & bot & E & Lt & Lb & R).
  destruct (h2v2_row_spec w in0' in1' in2' o0' o1' Hw G0' G1' G2' Go0' Go1')
    as (top' & bot' & E' & Lt' & Lb' & R').
  apply good_out_h2v2_elim in Go0 as (_ & Co0).
  apply good_out_h2v2_elim in Go1 as (_ & Co1).
  apply good_out_h2v2_elim in Go0' as (_ & Co0').
  apply good_out_h2v2_elim in Go1' as (_ & Co1').
  pose proof (round_up16_ge w) as Hr.
  exists top, bot, top', bot'. split; [exact E|]. split; [exact E'|].
  split.
  - rewrite (firstn_eq_map top (h2v2_scalar_pixel w in0 in1)),
            (firstn_eq_map top' (h2v2_scalar_pixel w in0 in1));
      try lia; trivial.
    + intros j Hj. destruct (R' j Hj) as [-> _].
      symmetry. now apply h2v2_pixel_agree.
    + intros j Hj. now destruct (R j Hj).
  - rewrite (firstn_eq_map bot (h2v2_scalar_pixel w in2 in1)),
            (firstn_eq_map bot' (h2v2_scalar_pixel w in2 in1));
      try lia; trivial.
    + intros j Hj. destruct (R' j Hj) as [_ ->].
      symmetry. now apply h2v2_pixel_agree.
    + intros j Hj. now destruct (R j Hj).
Qed.

Lemma h2v2_ignores_padding_witness :
  exists top bot top' bot',
    h2v2_row 3 (pad 32 [10; 20; 30]) (pad 32 [40; 50; 60])
             (pad 32 [70; 80; 90]) (repeat 0 64%nat) (repeat 0 64%nat)
    = Some (top, bot) /\
    h2v2_row 3 ([10; 20; 30] ++ repeat 255 29%nat)
             ([40; 50; 60] ++ repeat 255 29%nat)
             ([70; 80; 90] ++ repeat 255 29%nat)
             (repeat 9 64%nat) (repeat 9 64%nat)
    = Some (top', bot') /\
    firstn (Z.to_nat (2 * 3)) top = firstn (Z.to_nat (2 * 3)) top' /\
    firstn (Z.to_nat (2 * 3)) bot = firstn (Z.to_nat (2 * 3)) bot'.
Proof.
  apply (h2v2_ignores_padding 3); solve [reflexivity | lia].
Defined.

(** X11. The same for the h1v2 row body and the first [w] bytes of its
    rows. *)
Theorem h1v2_ignores_padding w in0 in1 in2 o0 o1 in0' in1' in2' o0' o1' :
  1 <= w <= 4294967280 ->
  good_in_h1v2 w in0 = true -> good_in_h1v2 w in1 = true ->
  good_in_h1v2 w in2 = true ->
  good_out_h1v2 w o0 = true -> good_out_h1v2 w o1 = true ->
  good_in_h1v2 w in0' = true -> good_in_h1v2 w in1' = true ->
  good_in_h1v2 w in2' = true ->
  good_out_h1v2 w o0' = true -> good_out_h1v2 w o1' = true ->
  agree w in0 in0' = true -> agree w in1 in1' = true ->
  agree w in2 in2' = true ->
  exists top bot top' bot',
    h1v2_row w in0 in1 in2 o0 o1 = Some (top, bot) /\
    h1v2_row w in0' in1' in2' o0' o1' = Some (top', bot') /\
    firstn (Z.to_nat w) top = firstn (Z.to_nat w) top' /\
    firstn (Z.to_nat w) bot = firstn (Z.to_nat w) bot'.
Proof.
  intros Hw G0 G1 G2 Go0 Go1 G0' G1' G2' Go0' Go1' A0 A1 A2.
  destruct (h1v2_row_spec w in0 in1 in2 o0 o1 Hw G0 G1 G2 Go0 Go1)
    as (top & bot & E & Lt & Lb & R).
  destruct (h1v2_row_spec w in0' in1' in2' o0' o1' Hw G0' G1' G2' Go0' Go1')
    as (top' & bot' & E' & Lt' & Lb' & R').
  unfold good_out_h1v2 in Go0, Go1, Go0', Go1'.
  apply Z.leb_le in Go0, Go1, Go0', Go1'.
  pose proof (round_up16_ge w) as Hr.
  exists top, bot, top', bot'. split; [exact E|]. split; [exact E'|].
  split.
  - rewrite (firstn_eq_map top (h1v2_top in0 in1)),
            (firstn_eq_map top' (h1v2_top in0 in1));
      try lia; trivial.
    + intros c Hc. destruct (R' c Hc) as [-> _].
      unfold h1v2_top, colsum.
      now rewrite (agree_rd w in0 in0' c), (agree_rd w in1 in1' c).
    + intros c Hc. now destruct (R c Hc).
  - rewrite (firstn_eq_map bot (h1v2_bottom in2 in1)),
            (firstn_eq_map bot' (h1v2_bottom in2 in1));
      try lia; trivial.
    + intros c Hc. destruct (R' c Hc) as [_ ->].
      unfold h1v2_bottom, colsum.
      now rewrite (agree_rd w in2 in2' c), (agree_rd w in1 in1' c).
    + intros c Hc. now destruct (R c Hc).
Qed.

Lemma h1v2_ignores_padding_witness :
  exists top bot top' bot',
    h1v2_row 3 (pad 32 [10; 20; 30]) (pad 32 [40; 50; 60])
             (pad 32 [70; 80; 90]) (repeat 0 64%nat) (repeat 0 64%nat)
    = Some (top, bot) /\
    h1v2_row 3 ([10; 20; 30] ++ repeat 255 29%nat)
             ([40; 50; 60] ++ repeat 255 29%nat)
             ([70; 80; 90] ++ repeat 255 29%nat)
             (repeat 9 64%nat) (repeat 9 64%nat)
    = Some (top', bot') /\
    firstn (Z.to_nat 3) top = firstn (Z.to_nat 3) top' /\
    firstn (Z.to_nat 3) bot = firstn (Z.to_nat 3) bot'.
Proof.
  apply (h1v2_ignores_padding 3); solve [reflexivity | lia].
Defined.

(** ** Interpolation stays between its samples *)

Lemma colsum_within lo hi w far near c :
  within lo hi w far = true -> within lo hi w near = true ->
  0 <= c < w -> 4 * lo <= colsum far near c <= 4 * hi.
Proof.
  intros Hf Hn Hc. unfold colsum.
  pose proof (within_rd lo hi w far c Hf Hc).
  pose proof (within_rd lo hi w near c Hn Hc). lia.
Qed.

Lemma h2v2_pixel_within lo hi w far near j :
  within lo hi w far = true -> within lo hi w near = true ->
  0 <= j < 2 * w ->
  lo <= h2v2_scalar_pixel w far near j <= hi.
Proof.
  intros Hf Hn Hj.
  destruct (scalar_pixel_cases w j Hj)
    as (c0 & c1 & bias & H0 & H1 & Hb & ->).
  pose proof (colsum_within lo hi w far near c0 Hf Hn H0).
  pose proof (colsum_within lo hi w far near c1 Hf Hn H1).
  zdiv.
Qed.

(** X12. The h2v2 row body does not overshoot: on valid rows, if the
    first [w] samples of the three input rows lie between [lo] and [hi],
    so does each of the [2w] logical pixels of both output rows. *)
Theorem h2v2_no_overshoot lo hi w in0 in1 in2 o0 o1 j :
  1 <= w < 2147483648 ->
  good_in_h2v2 w in0 = true -> good_in_h2v2 w in1 = true ->
  good_in_h2v2 w in2 = true ->
  good_out_h2v2 w o0 = true -> good_out_h2v2 w o1 = true ->
  within lo hi w in0 = true -> within lo hi w in1 = true ->
  within lo hi w in2 = true ->
  0 <= j < 2 * w ->
  exists top bot p q,
    h2v2_row w in0 in1 in2 o0 o1 = Some (top, bot) /\
    load top j = Some p /\ load bot j = Some q /\
    lo <= p <= hi /\ lo <= q <= hi.
Proof.
  intros Hw G0 G1 G2 Go0 Go1 W0 W1 W2 Hj.
  destruct (h2v2_row_spec w in0 in1 in2 o0 o1 Hw G0 G1 G2 Go0 Go1)
    as (top & bot & E & Lt & Lb & R).
  apply good_out_h2v2_elim in Go0 as (_ & Co0).
  apply good_out_h2v2_elim in Go1 as (_ & Co1).
  pose proof (round_up16_ge w) as Hr.
  destruct (R j Hj) as [Rt Rb].
  exists top, bot, (h2v2_scalar_pixel w in0 in1 j),
         (h2v2_scalar_pixel w in2 in1 j).
  split; [exact E|].
  split; [apply load_of_rd; [lia | exact Rt]|].
  split; [apply load_of_rd; [lia | exact Rb]|].
  split; now apply h2v2_pixel_within.
Qed.

Lemma h2v2_no_overshoot_witness :
  exists top bot p q,
    h2v2_row 3 (pad 32 [10; 20; 30]) (pad 32 [40; 50; 60])
             (pad 32 [70; 80; 90]) (repeat 0 64%nat) (repeat 0 64%nat)
    = Some (top, bot) /\
    load top 3 = Some p /\ load bot 3 = Some q /\
    10 <= p <= 90 /\ 10 <= q <= 90.
Proof.
  apply (h2v2_no_overshoot 10 90 3); solve [reflexivity | lia].
Defined.

(** X13. The h1v2 row body does not overshoot either. *)
Theorem h1v2_no_overshoot lo hi w in0 in1 in2 o0 o1 c :
  1 <= w <= 4294967280 ->
  good_in_h1v2 w in0 = true -> good_in_h1v2 w in1 = true ->
  good_in_h1v2 w in2 = true ->
  good_out_h1v2 w o0 = true -> good_out_h1v2 w o1 = true ->
  within lo hi w in0 = true -> within lo hi w in1 = true ->
  within lo hi w in2 = true ->
  0 <= c < w ->
  exists top bot p q,
    h1v2_row w in0 in1 in2 o0 o1 = Some (top, bot) /\
    load top c = Some p /\ load bot c = Some q /\
    lo <= p <= hi /\ lo <= q <= hi.
Proof.
  intros Hw G0 G1 G2 Go0 Go1 W0 W1 W2 Hc.
  destruct (h1v2_row_spec w in0 in1 in2 o0 o1 Hw G0 G1 G2 Go0 Go1)
    as (top & bot & E & Lt & Lb & R).
  unfold good_out_h1v2 in Go0, Go1. apply Z.leb_le in Go0, Go1.
  pose proof (round_up16_ge w) as Hr.
  destruct (R c Hc) as [Rt Rb].
  exists top, bot, (h1v2_top in0 in1 c), (h1v2_bottom in2 in1 c).
  split; [exact E|].
  split; [apply load_of_rd; [lia | exact Rt]|].
  split; [apply load_of_rd; [lia | exact Rb]|].
  pose proof (colsum_within lo hi w in0 in1 c W0 W1 Hc).
  pose proof (colsum_within lo hi w in2 in1 c W2 W1 Hc).
  unfold h1v2_top, h1v2_bottom. rewrite !shiftr2. split; zdiv.
Qed.

Lemma h1v2_no_overshoot_witness :
  exists top bot p q,
    h1v2_row 3 (pad 32 [10; 20; 30]) (pad 32 [40; 50; 60])
             (pad 32 [70; 80; 90]) (repeat 0 64%nat) (repeat 0 64%nat)
    = Some (top, bot) /\
    load top 1 = Some p /\ load bot 1 = Some q /\
    10 <= p <= 90 /\ 10 <= q <= 90.
Proof.
  apply (h1v2_no_overshoot 10 90 3); solve [reflexivity | lia].
Defined.

(** ** Monotonicity *)

Lemma colsum_below w far near far' near' c :
  below_row w far far' = true -> below_row w near near' = true ->
  0 <= c < w -> colsum far near c <= colsum far' near' c.
Proof.
  intros Hf Hn Hc. unfold colsum.
  pose proof (below_row_rd w far far' c Hf Hc).
  pose proof (below_row_rd w near near' c Hn Hc). lia.
Qed.

(** X14. The h2v2 row body is monotone: on valid rows, raising input
    samples never lowers a logical output pixel. *)
Theorem h2v2_monotone w in0 in1 in2 o0 o1 in0' in1' in2' o0' o1' j :
  1 <= w < 2147483648 ->
  good_in_h2v2 w in0 = true -> good_in_h2v2 w in1 = true ->
  good_in_h2v2 w in2 = true ->
  good_out_h2v2 w o0 = true -> good_out_h2v2 w o1 = true ->
  good_in_h2v2 w in0' = true -> good_in_h2v2 w in1' = true ->
  good_in_h2v2 w in2' = true ->
  good_out_h2v2 w o0' = true -> good_out_h2v2 w o1' = true ->
  below_row w in0 in0' = true -> below_row w in1 in1' = true ->
  below_row w in2 in2' = true ->
  0 <= j < 2 * w ->
  exists top bot top' bot',
    h2v2_row w in0 in1 in2 o0 o1 = Some (top, bot) /\
    h2v2_row w in0' in1' in2' o0' o1' = Some (top', bot') /\
    rd top j <= rd top' j /\ rd bot j <= rd bot' j.
Proof.
  intros Hw G0 G1 G2 Go0 Go1 G0' G1' G2' Go0' Go1' A0 A1 A2 Hj.
  destruct (h2v2_row_spec w in0 in1 in2 o0 o1 Hw G0 G1 G2 Go0 Go1)
    as (top & bot & E & _ & _ & R).
  destruct (h2v2_row_spec w in0' in1' in2' o0' o1' Hw G0' G1' G2' Go0' Go1')
    as (top' & bot' & E' & _ & _ & R').
  exists top, bot, top', bot'. split; [exact E|]. split; [exact E'|].
  destruct (R j Hj) as [-> ->]. destruct (R' j Hj) as [-> ->].
  destruct (scalar_pixel_cases w j Hj)
    as (c0 & c1 & bias & H0 & H1 & Hb & Hpix).
  rewrite !Hpix.
  pose proof (colsum_below w in0 in1 in0' in1' c0 A0 A1 H0).
  pose proof (colsum_below w in0 in1 in0' in1' c1 A0 A1 H1).
  pose proof (colsum_below w in2 in1 in2' in1' c0 A2 A1 H0).
  pose proof (colsum_below w in2 in1 in2' in1' c1 A2 A1 H1).
  split; zdiv.
Qed.

Lemma h2v2_monotone_witness :
  exists top bot top' bot',
    h2v2_row 3 (pad 32 [10; 20; 30]) (pad 32 [40; 50; 60])
             (pad 32 [70; 80; 90]) (repeat 0 64%nat) (repeat 0 64%nat)
    = Some (top, bot) /\
    h2v2_row 3 (pad 32 [11; 20; 35]) (pad 32 [40; 54; 60])
             (pad 32 [70; 80; 255]) (repeat 0 64%nat) (repeat 0 64%nat)
    = Some (top', bot') /\
    rd top 4 <= rd top' 4 /\ rd bot 4 <= rd bot' 4.
Proof.
  apply (h2v2_monotone 3); solve [reflexivity | lia].
Defined.

(** X15. The h1v2 row body is monotone in the same sense. *)
Theorem h1v2_monotone w in0 in1 in2 o0 o1 in0' in1' in2' o0' o1' c :
  1 <= w <= 4294967280 ->
  good_in_h1v2 w in0 = true -> good_in_h1v2 w in1 = true ->
  good_in_h1v2 w in2 = true ->
  good_out_h1v2 w o0 = true -> good_out_h1v2 w o1 = true ->
  good_in_h1v2 w in0' = true -> good_in_h1v2 w in1' = true ->
  good_in_h1v2 w in2' = true ->
  good_out_h1v2 w o0' = true -> good_out_h1v2 w o1' = true ->
  below_row w in0 in0' = true -> below_row w in1 in1' = true ->
  below_row w in2 in2' = true ->
  0 <= c < w ->
  exists top bot top' bot',
    h1v2_row w in0 in1 in2 o0 o1 = Some (top, bot) /\
    h1v2_row w in0' in1' in2' o0' o1' = Some (top', bot') /\
    rd top c <= rd top' c /\ rd bot c <= rd bot' c.
Proof.
  intros Hw G0 G1 G2 Go0 Go1 G0' G1' G2' Go0' Go1' A0 A1 A2 Hc.
  destruct (h1v2_row_spec w in0 in1 in2 o0 o1 Hw G0 G1 G2 Go0 Go1)
    as (top & bot & E & _ & _ & R).
  destruct (h1v2_row_spec w in0' in1' in2' o0' o1' Hw G0' G1' G2' Go0' Go1')
    as (top' & bot' & E' & _ & _ & R').
  exists top, bot, top', bot'. split; [exact E|]. split; [exact E'|].
  destruct (R c Hc) as [-> ->]. destruct (R' c Hc) as [-> ->].
  pose proof (colsum_below w in0 in1 in0' in1' c A0 A1 Hc).
  pose proof (colsum_below w in2 in1 in2' in1' c A2 A1 Hc).
  unfold h1v2_top, h1v2_bottom. rewrite !shiftr2. split; zdiv.
Qed.

Lemma h1v2_monotone_witness :
  exists top bot top' bot',
    h1v2_row 3 (pad 32 [10; 20; 30]) (pad 32 [40; 50; 60])
             (pad 32 [70; 80; 90]) (repeat 0 64%nat) (repeat 0 64%nat)
    = Some (top, bot) /\
    h1v2_row 3 (pad 32 [11; 20; 35]) (pad 32 [40; 54; 60])
             (pad 32 [70; 80; 255]) (repeat 0 64%nat) (repeat 0 64%nat)
    = Some (top', bot') /\
    rd top 2 <= rd top' 2 /\ rd bot 2 <= rd bot' 2.
Proof.
  apply (h1v2_monotone 3); solve [reflexivity | lia].
Defined.

(** ** The ordered dither *)

(** X16. In the h1v2 row body, where the rows above and below hold the
    same sample at column [c], the bottom pixel is the top pixel, plus
    one exactly when the column sum [3*cur + above] leaves remainder 2
    modulo 4: the two biases 1 and 2 differ in that case only. *)
Theorem h1v2_dither w in0 in1 in2 o0 o1 c :
  1 <= w <= 4294967280 ->
  good_in_h1v2 w in0 = true -> good_in_h1v2 w in1 = true ->
  good_in_h1v2 w in2 = true ->
  good_out_h1v2 w o0 = true -> good_out_h1v2 w o1 = true ->
  0 <= c < w ->
  rd in0 c = rd in2 c ->
  exists top bot p,
    h1v2_row w in0 in1 in2 o0 o1 = Some (top, bot) /\
    load top c = Some p /\
    load bot c
    = Some (p + if (3 * rd in1 c + rd in0 c) mod 4 =? 2 then 1 else 0).
Proof.
  intros Hw G0 G1 G2 Go0 Go1 Hc Heq.
  destruct (h1v2_row_spec w in0 in1 in2 o0 o1 Hw G0 G1 G2 Go0 Go1)
    as (top & bot & E & Lt & Lb & R).
  unfold good_out_h1v2 in Go0, Go1. apply Z.leb_le in Go0, Go1.
  pose proof (round_up16_ge w) as Hr.
  destruct (R c Hc) as [Rt Rb].
  exists top, bot, (h1v2_top in0 in1 c).
  split; [exact E|].
  split; [apply load_of_rd; [lia | exact Rt]|].
  apply load_of_rd; [lia|]. rewrite Rb.
  unfold h1v2_top, h1v2_bottom, colsum. rewrite <- Heq, !shiftr2.
  destruct (Z.eqb_spec ((3 * rd in1 c + rd in0 c) mod 4) 2); zdiv.
Qed.

Lemma h1v2_dither_witness :
  exists top bot p,
    h1v2_row 3 (pad 32 [10; 20; 30]) (pad 32 [40; 50; 60])
             (pad 32 [10; 80; 90]) (repeat 0 64%nat) (repeat 0 64%nat)
    = Some (top, bot) /\
    load top 0 = Some p /\
    load bot 0
    = Some (p + if (3 * rd (pad 32 [40; 50; 60]) 0
                    + rd (pad 32 [10; 20; 30]) 0) mod 4 =? 2
                then 1 else 0).
Proof.
  apply (h1v2_dither 3); solve [reflexivity | lia].
Defined.

(** ** The boundary pixels of h2v2 are h1v2 pixels *)

Lemma good_in_h2v2_h1v2 w r :
  good_in_h2v2 w r = true -> good_in_h1v2 w r = true.
Proof.
  intros (_ & C & B)%good_in_h2v2_elim. unfold good_in_h1v2.
  apply andb_true_iff. split; [now apply Z.leb_le | exact B].
Qed.

(** X17. On the same valid input rows, the last pixel of the top row of
    h2v2 is the last pixel of the top row of h1v2, and the first pixel of
    the bottom row of h2v2 is the first pixel of the bottom row of h1v2:
    [(4s + 7) >> 4 = (s + 1) >> 2] and [(4s + 8) >> 4 = (s + 2) >> 2]. *)
Theorem h2v2_boundary_is_h1v2 w in0 in1 in2 o0 o1 p0 p1 :
  1 <= w < 2147483648 ->
  good_in_h2v2 w in0 = true -> good_in_h2v2 w in1 = true ->
  good_in_h2v2 w in2 = true ->
  good_out_h2v2 w o0 = true -> good_out_h2v2 w o1 = true ->
  good_out_h1v2 w p0 = true -> good_out_h1v2 w p1 = true ->
  exists top bot top' bot',
    h2v2_row w in0 in1 in2 o0 o1 = Some (top, bot) /\
    h1v2_row w in0 in1 in2 p0 p1 = Some (top', bot') /\
    rd top (2 * w - 1) = rd top' (w - 1) /\
    rd bot 0 = rd bot' 0.
Proof.
  intros Hw G0 G1 G2 Go0 Go1 Gp0 Gp1.
  destruct (h2v2_row_spec w in0 in1 in2 o0 o1 Hw G0 G1 G2 Go0 Go1)
    as (top & bot & E & _ & _ & R).
  destruct (h1v2_row_spec w in0 in1 in2 p0 p1 ltac:(lia)
              (good_in_h2v2_h1v2 _ _ G0) (good_in_h2v2_h1v2 _ _ G1)
              (good_in_h2v2_h1v2 _ _ G2) Gp0 Gp1)
    as (top' & bot' & E' & _ & _ & R').
  exists top, bot, top', bot'. split; [exact E|]. split; [exact E'|].
  destruct (R (2 * w - 1) ltac:(lia)) as [-> _].
  destruct (R 0 ltac:(lia)) as [_ ->].
  destruct (R' (w - 1) ltac:(lia)) as [-> _].
  destruct (R' 0 ltac:(lia)) as [_ ->].
  rewrite scalar_pixel_last, scalar_pixel_first by lia.
  unfold h2v2_last, h2v2_first, h1v2_top, h1v2_bottom.
  rewrite !shiftr4, !shiftr2. split; zdiv.
Qed.

Lemma h2v2_boundary_is_h1v2_witness :
  exists top bot top' bot',
    h2v2_row 3 (pad 32 [10; 20; 30]) (pad 32 [40; 50; 60])
             (pad 32 [70; 80; 90]) (repeat 0 64%nat) (repeat 0 64%nat)
    = Some (top, bot) /\
    h1v2_row 3 (pad 32 [10; 20; 30]) (pad 32 [40; 50; 60])
             (pad 32 [70; 80; 90]) (repeat 0 16%nat) (repeat 0 16%nat)
    = Some (top', bot') /\
    rd top (2 * 3 - 1) = rd top' (3 - 1) /\
    rd bot 0 = rd bot' 0.
Proof.
  apply (h2v2_boundary_is_h1v2 3); solve [reflexivity | lia].
Defined.

(** * The 16-bit and 8-bit ranges of the vector arithmetic *)

Lemma h2v2_blend_stages s0r0 s0r1 s0r2 s1r0 s1r1 s1r2 :
  h2v2_blend s0r0 s0r1 s0r2 s1r0 s1r1 s1r2
  = h2v2_narrow vshrn_n_u16 vrshrn_n_u16
      (h2v2_sums vmlal_u8 vmlaq_u16 vaddq_u16
                 s0r0 s0r1 s0r2 s1r0 s1r1 s1r2).
Proof. reflexivity. Qed.

Lemma h1v2_blend_stages r0 r1 r2 :
  h1v2_blend r0 r1 r2
  = h1v2_narrow vshrn_n_u16 vrshrn_n_u16
      (h1v2_sums vmlal_u8 vaddq_u16 r0 r1 r2).
Proof. reflexivity. Qed.

Lemma Forall_take (P : Z -> Prop) (v : list Z) : forall n,
  Forall P v -> Forall P (firstn n v).
Proof.
  induction v as [|x v IH]; destruct n; simpl; intros H; auto.
  inversion H; subst. constructor; auto.
Qed.

Lemma Forall_drop (P : Z -> Prop) (v : list Z) : forall n,
  Forall P v -> Forall P (skipn n v).
Proof.
  induction v as [|x v IH]; destruct n; simpl; intros H; auto.
  inversion H; subst. auto.
Qed.

Lemma bytes_Forall v :
  forallb is_u8 v = true -> Forall (fun x => 0 <= x <= 255) v.
Proof.
  intros H. apply Forall_forall. intros x Hx.
  rewrite forallb_forall in H. apply H in Hx.
  unfold is_u8 in Hx. lia.
Qed.

Lemma mla_vec (A B c : Z) :
  0 <= c -> 0 <= B -> A + B * c < 65536 ->
  forall (n : nat) (a b : list Z),
    Forall (fun x => 0 <= x <= A) a -> Forall (fun x => 0 <= x <= B) b ->
    map3 mla_lane a b (repeat c n) = exact_mla a b (repeat c n) /\
    Forall (fun x => 0 <= x <= A + B * c) (exact_mla a b (repeat c n)).
Proof.
  intros Hc HB Hfit. unfold exact_mla.
  induction n as [|n IH]; intros a b Ha Hb;
    destruct a as [|x a], b as [|y b]; simpl; auto.
  inversion Ha; subst. inversion Hb; subst.
  destruct (IH a b) as [E F]; trivial.
  split.
  - rewrite E. f_equal. unfold mla_lane, u16. apply Z.mod_small. nia.
  - constructor; [nia | exact F].
Qed.

Lemma add_vec (A c : Z) :
  0 <= c -> A + c < 65536 ->
  forall (n : nat) (a : list Z),
    Forall (fun x => 0 <= x <= A) a ->
    map2 add_lane a (repeat c n) = exact_add a (repeat c n) /\
    Forall (fun x => 0 <= x <= A + c) (exact_add a (repeat c n)).
Proof.
  intros Hc Hfit. unfold exact_add.
  induction n as [|n IH]; intros a Ha; destruct a as [|x a]; simpl; auto.
  inversion Ha; subst. destruct (IH a) as [E F]; trivial.
  split.
  - rewrite E. f_equal. unfold add_lane, u16. apply Z.mod_small. lia.
  - constructor; [lia | exact F].
Qed.

Lemma shr_vec (A n : Z) :
  0 <= n -> Z.shiftr A n <= 255 ->
  forall a : list Z,
    Forall (fun x => 0 <= x <= A) a ->
    vshrn_n_u16 a n = exact_shr a n /\
    Forall (fun x => 0 <= x <= 255) (exact_shr a n).
Proof.
  intros Hn Hfit. unfold vshrn_n_u16, exact_shr.
  induction a as [|x a IH]; intros Ha; simpl; auto.
  inversion Ha; subst. destruct (IH H2) as [E F].
  assert (0 <= Z.shiftr x n <= 255) as Hx.
  { split; [apply Z.shiftr_nonneg; lia|].
    rewrite Z.shiftr_div_pow2 in * by lia.
    etransitivity; [|exact Hfit].
    apply Z.div_le_mono; [apply Z.pow_pos_nonneg; lia | lia]. }
  split.
  - rewrite E. f_equal. unfold shrn_lane, u8. apply Z.mod_small. lia.
  - constructor; [exact Hx | exact F].
Qed.

Lemma rshr_vec (A n : Z) :
  1 <= n -> Z.shiftr (A + Z.shiftl 1 (n - 1)) n <= 255 ->
  forall a : list Z,
    Forall (fun x => 0 <= x <= A) a ->
    vrshrn_n_u16 a n = exact_rshr a n /\
    Forall (fun x => 0 <= x <= 255) (exact_rshr a n).
Proof.
  intros Hn Hfit. unfold vrshrn_n_u16, exact_rshr.
  assert (0 < Z.shiftl 1 (n - 1)) as Hpos
    by (rewrite Z.shiftl_1_l; apply Z.pow_pos_nonneg; lia).
  induction a as [|x a IH]; intros Ha; simpl; auto.
  inversion Ha; subst. destruct (IH H2) as [E F].
  assert (0 <= Z.shiftr (x + Z.shiftl 1 (n - 1)) n <= 255) as Hx.
  { split; [apply Z.shiftr_nonneg; lia|].
    rewrite Z.shiftr_div_pow2 in * by lia.
    etransitivity; [|exact Hfit].
    apply Z.div_le_mono; [apply Z.pow_pos_nonneg; lia | lia]. }
  split.
  - rewrite E. f_equal. unfold rshrn_lane, u8. apply Z.mod_small. lia.
  - constructor; [exact Hx | exact F].
Qed.

(** The column sums of 8-bit samples. *)
Lemma colsum_vec far near :
  Forall (fun x => 0 <= x <= 255) far ->
  Forall (fun x => 0 <= x <= 255) near ->
  vmlal_u8 (vmovl_u8 far) near three_u8
  = exact_mla (vmovl_u8 far) near three_u8 /\
  Forall (fun x => 0 <= x <= 1020)
         (exact_mla (vmovl_u8 far) near three_u8).
Proof.
  intros Hf Hn.
  apply (mla_vec 255 255 3 ltac:(lia) ltac:(lia) ltac:(lia) 8 far near Hf Hn).
Qed.

(** The 3:1 blends of two column sums. *)
Lemma blend_vec x y :
  Forall (fun x => 0 <= x <= 1020) x ->
  Forall (fun x => 0 <= x <= 1020) y ->
  vmlaq_u16 x y three_u16 = exact_mla x y three_u16 /\
  Forall (fun x => 0 <= x <= 4080) (exact_mla x y three_u16).
Proof.
  intros Hx Hy.
  apply (mla_vec 1020 1020 3 ltac:(lia) ltac:(lia) ltac:(lia) 8 x y Hx Hy).
Qed.

Lemma bias7_vec x :
  Forall (fun x => 0 <= x <= 4080) x ->
  vaddq_u16 x seven_u16 = exact_add x seven_u16 /\
  Forall (fun x => 0 <= x <= 4087) (exact_add x seven_u16).
Proof.
  intros Hx. apply (add_vec 4080 7 ltac:(lia) ltac:(lia) 8 x Hx).
Qed.

Lemma bias1_vec x :
  Forall (fun x => 0 <= x <= 1020) x ->
  vaddq_u16 x one_u16 = exact_add x one_u16 /\
  Forall (fun x => 0 <= x <= 1021) (exact_add x one_u16).
Proof.
  intros Hx. apply (add_vec 1020 1 ltac:(lia) ltac:(lia) 8 x Hx).
Qed.

Lemma colsum_vec_bound far near :
  Forall (fun x => 0 <= x <= 255) far ->
  Forall (fun x => 0 <= x <= 255) near ->
  Forall (fun x => 0 <= x <= 1020)
         (exact_mla (vmovl_u8 far) near three_u8).
Proof. intros Hf Hn. apply (colsum_vec far near Hf Hn). Qed.

Lemma blend_vec_bound x y :
  Forall (fun x => 0 <= x <= 1020) x ->
  Forall (fun x => 0 <= x <= 1020) y ->
  Forall (fun x => 0 <= x <= 4080) (exact_mla x y three_u16).
Proof. intros Hx Hy. apply (blend_vec x y Hx Hy). Qed.

Lemma bias7_vec_bound x :
  Forall (fun x => 0 <= x <= 4080) x ->
  Forall (fun x => 0 <= x <= 4087) (exact_add x seven_u16).
Proof. intros Hx. apply (bias7_vec x Hx). Qed.

Lemma bias1_vec_bound x :
  Forall (fun x => 0 <= x <= 1020) x ->
  Forall (fun x => 0 <= x <= 1021) (exact_add x one_u16).
Proof. intros Hx. apply (bias1_vec x Hx). Qed.

(** Solves the range of the lanes of a vector built from 8-bit samples. *)
Ltac lanes :=
  unfold vget_low_u8, vget_high_u8;
  repeat first
    [ assumption
    | apply Forall_take
    | apply Forall_drop
    | apply colsum_vec_bound
    | apply blend_vec_bound
    | apply bias7_vec_bound
    | apply bias1_vec_bound ].

Lemma colsum_vec_eq far near :
  Forall (fun x => 0 <= x <= 255) far ->
  Forall (fun x => 0 <= x <= 255) near ->
  vmlal_u8 (vmovl_u8 far) near three_u8
  = exact_mla (vmovl_u8 far) near three_u8.
Proof. intros Hf Hn. apply (colsum_vec far near Hf Hn). Qed.

Lemma blend_vec_eq x y :
  Forall (fun x => 0 <= x <= 1020) x ->
  Forall (fun x => 0 <= x <= 1020) y ->
  vmlaq_u16 x y three_u16 = exact_mla x y three_u16.
Proof. intros Hx Hy. apply (blend_vec x y Hx Hy). Qed.

Lemma bias7_vec_eq x :
  Forall (fun x => 0 <= x <= 4080) x ->
  vaddq_u16 x seven_u16 = exact_add x seven_u16.
Proof. intros Hx. apply (bias7_vec x Hx). Qed.

Lemma bias1_vec_eq x :
  Forall (fun x => 0 <= x <= 1020) x ->
  vaddq_u16 x one_u16 = exact_add x one_u16.
Proof. intros Hx. apply (bias1_vec x Hx). Qed.

Section BlendOnBytes.

Variables s0r0 s0r1 s0r2 s1r0 s1r1 s1r2 : list Z.
Hypothesis B00 : Forall (fun x => 0 <= x <= 255) s0r0.
Hypothesis B01 : Forall (fun x => 0 <= x <= 255) s0r1.
Hypothesis B02 : Forall (fun x => 0 <= x <= 255) s0r2.
Hypothesis B10 : Forall (fun x => 0 <= x <= 255) s1r0.
Hypothesis B11 : Forall (fun x => 0 <= x <= 255) s1r1.
Hypothesis B12 : Forall (fun x => 0 <= x <= 255) s1r2.

(** On 8-bit samples the wrapping 16-bit stage computes the exact sums. *)
Lemma h2v2_sums_exact :
  h2v2_sums vmlal_u8 vmlaq_u16 vaddq_u16 s0r0 s0r1 s0r2 s1r0 s1r1 s1r2
  = h2v2_sums exact_mla exact_mla exact_add
              s0r0 s0r1 s0r2 s1r0 s1r1 s1r2.
Proof.
  unfold h2v2_sums. cbv zeta.
  rewrite !colsum_vec_eq by lanes.
  rewrite !blend_vec_eq by lanes.
  rewrite !bias7_vec_eq by lanes.
  reflexivity.
Qed.

Lemma h2v2_sums_bounds :
  let e := h2v2_sums exact_mla exact_mla exact_add
                     s0r0 s0r1 s0r2 s1r0 s1r1 s1r2 in
  all_lanes (fun x => 0 <= x <= 1020) (colsums e) /\
  all_lanes (fun x => 0 <= x <= 4080) (blends_p1 e) /\
  all_lanes (fun x => 0 <= x <= 4087) (outputs_p1 e) /\
  all_lanes (fun x => 0 <= x <= 4080) (outputs_p2 e).
Proof.
  cbv zeta. unfold h2v2_sums, all_lanes.
  cbn [colsums blends_p1 outputs_p1 outputs_p2].
  repeat split; repeat constructor; lanes.
Qed.

End BlendOnBytes.

(** C8. In the h2v2 kernel, on 8-bit samples no 16-bit lane wraps.
    [h2v2_blend] is the narrowing of the sum vectors computed with the
    wrapping intrinsics; on vectors of 8-bit samples these sum vectors are
    the ones computed on unbounded integers; every lane of a column sum is
    at most [3*255 + 255 = 1020], and four times it plus the boundary bias
    is below 2^16; every lane of a 3:1 blend, before and after the bias 7,
    and of a blend to which the rounding shift adds 8, is below 2^16. *)
Theorem h2v2_sums_fit_16_bits (s0r0 s0r1 s0r2 s1r0 s1r1 s1r2 : list Z) :
  forallb is_u8 s0r0 = true -> forallb is_u8 s0r1 = true ->
  forallb is_u8 s0r2 = true -> forallb is_u8 s1r0 = true ->
  forallb is_u8 s1r1 = true -> forallb is_u8 s1r2 = true ->
  let wrapping :=
    h2v2_sums vmlal_u8 vmlaq_u16 vaddq_u16
              s0r0 s0r1 s0r2 s1r0 s1r1 s1r2 in
  let exact :=
    h2v2_sums exact_mla exact_mla exact_add
              s0r0 s0r1 s0r2 s1r0 s1r1 s1r2 in
  h2v2_blend s0r0 s0r1 s0r2 s1r0 s1r1 s1r2
  = h2v2_narrow vshrn_n_u16 vrshrn_n_u16 wrapping /\
  wrapping = exact /\
  all_lanes (fun x => 0 <= x <= 1020 /\ x * 4 + 8 < 65536)
            (colsums exact) /\
  all_lanes (fun x => 0 <= x < 65536) (blends_p1 exact) /\
  all_lanes (fun x => 0 <= x < 65536) (outputs_p1 exact) /\
  all_lanes (fun x => 0 <= x /\ x + Z.shiftl 1 (4 - 1) < 65536)
            (outputs_p2 exact).
Proof.
  intros B00%bytes_Forall B01%bytes_Forall B02%bytes_Forall
         B10%bytes_Forall B11%bytes_Forall B12%bytes_Forall.
  cbv zeta.
  split; [reflexivity|].
  split; [now apply h2v2_sums_exact|].
  destruct (h2v2_sums_bounds s0r0 s0r1 s0r2 s1r0 s1r1 s1r2
              B00 B01 B02 B10 B11 B12) as (Hc & Hb & Hp1 & Hp2).
  change (Z.shiftl 1 (4 - 1)) with 8.
  unfold all_lanes in *.
  repeat split.
  - eapply Forall_impl; [|exact Hc]. intros v Hv.
    eapply Forall_impl; [|exact Hv]. cbv beta. intros x Hx. lia.
  - eapply Forall_impl; [|exact Hb]. intros v Hv.
    eapply Forall_impl; [|exact Hv]. cbv beta. intros x Hx. lia.
  - eapply Forall_impl; [|exact Hp1]. intros v Hv.
    eapply Forall_impl; [|exact Hv]. cbv beta. intros x Hx. lia.
  - eapply Forall_impl; [|exact Hp2]. intros v Hv.
    eapply Forall_impl; [|exact Hv]. cbv beta. intros x Hx. lia.
Qed.

Lemma h2v2_sums_fit_16_bits_witness :
  let wrapping :=
    h2v2_sums vmlal_u8 vmlaq_u16 vaddq_u16
              (repeat 255 16) (repeat 255 16) (repeat 0 16)
              (repeat 255 16) (repeat 255 16) (repeat 7 16) in
  let exact :=
    h2v2_sums exact_mla exact_mla exact_add
              (repeat 255 16) (repeat 255 16) (repeat 0 16)
              (repeat 255 16) (repeat 255 16) (repeat 7 16) in
  h2v2_blend (repeat 255 16) (repeat 255 16) (repeat 0 16)
             (repeat 255 16) (repeat 255 16) (repeat 7 16)
  = h2v2_narrow vshrn_n_u16 vrshrn_n_u16 wrapping /\
  wrapping = exact /\
  all_lanes (fun x => 0 <= x <= 1020 /\ x * 4 + 8 < 65536)
            (colsums exact) /\
  all_lanes (fun x => 0 <= x < 65536) (blends_p1 exact) /\
  all_lanes (fun x => 0 <= x < 65536) (outputs_p1 exact) /\
  all_lanes (fun x => 0 <= x /\ x + Z.shiftl 1 (4 - 1) < 65536)
            (outputs_p2 exact).
Proof.
  apply (h2v2_sums_fit_16_bits
           (repeat 255 16) (repeat 255 16) (repeat 0 16)
           (repeat 255 16) (repeat 255 16) (repeat 7 16)); reflexivity.
Defined.

Lemma shr4_vec x :
  Forall (fun x => 0 <= x <= 4087) x ->
  vshrn_n_u16 x 4 = exact_shr x 4 /\
  Forall (fun x => 0 <= x <= 255) (exact_shr x 4).
Proof. apply (shr_vec 4087 4); [lia | now vm_compute]. Qed.

Lemma rshr4_vec x :
  Forall (fun x => 0 <= x <= 4080) x ->
  vrshrn_n_u16 x 4 = exact_rshr x 4 /\
  Forall (fun x => 0 <= x <= 255) (exact_rshr x 4).
Proof. apply (rshr_vec 4080 4); [lia | now vm_compute]. Qed.

Lemma shr2_vec x :
  Forall (fun x => 0 <= x <= 1021) x ->
  vshrn_n_u16 x 2 = exact_shr x 2 /\
  Forall (fun x => 0 <= x <= 255) (exact_shr x 2).
Proof. apply (shr_vec 1021 2); [lia | now vm_compute]. Qed.

Lemma rshr2_vec x :
  Forall (fun x => 0 <= x <= 1020) x ->
  vrshrn_n_u16 x 2 = exact_rshr x 2 /\
  Forall (fun x => 0 <= x <= 255) (exact_rshr x 2).
Proof. apply (rshr_vec 1020 2); [lia | now vm_compute]. Qed.

Lemma h2v2_blend_exact s0r0 s0r1 s0r2 s1r0 s1r1 s1r2 :
  Forall (fun x => 0 <= x <= 255) s0r0 ->
  Forall (fun x => 0 <= x <= 255) s0r1 ->
  Forall (fun x => 0 <= x <= 255) s0r2 ->
  Forall (fun x => 0 <= x <= 255) s1r0 ->
  Forall (fun x => 0 <= x <= 255) s1r1 ->
  Forall (fun x => 0 <= x <= 255) s1r2 ->
  let out := h2v2_blend s0r0 s0r1 s0r2 s1r0 s1r1 s1r2 in
  out = h2v2_narrow exact_shr exact_rshr
          (h2v2_sums exact_mla exact_mla exact_add
                     s0r0 s0r1 s0r2 s1r0 s1r1 s1r2) /\
  all_lanes (fun x => 0 <= x <= 255)
            [fst (fst out); snd (fst out); fst (snd out); snd (snd out)].
Proof.
  intros B00 B01 B02 B10 B11 B12. cbv zeta.
  rewrite h2v2_blend_stages, h2v2_sums_exact by assumption.
  unfold h2v2_sums. cbv zeta. unfold h2v2_narrow, all_lanes.
  cbn [outputs_p1 outputs_p2 fst snd].
  rewrite !(fun x H => proj1 (shr4_vec x H)) by lanes.
  rewrite !(fun x H => proj1 (rshr4_vec x H)) by lanes.
  split; [reflexivity|].
  unfold vcombine_u8.
  repeat constructor; apply Forall_app; split;
    first [ apply shr4_vec | apply rshr4_vec ]; lanes.
Qed.

Lemma h1v2_blend_exact r0 r1 r2 :
  Forall (fun x => 0 <= x <= 255) r0 ->
  Forall (fun x => 0 <= x <= 255) r1 ->
  Forall (fun x => 0 <= x <= 255) r2 ->
  let out := h1v2_blend r0 r1 r2 in
  out = h1v2_narrow exact_shr exact_rshr
          (h1v2_sums exact_mla exact_add r0 r1 r2) /\
  all_lanes (fun x => 0 <= x <= 255) [fst out; snd out].
Proof.
  intros B0 B1 B2. cbv zeta.
  rewrite h1v2_blend_stages.
  unfold h1v2_sums. cbv zeta. unfold h1v2_narrow, all_lanes.
  rewrite !colsum_vec_eq by lanes.
  rewrite !bias1_vec_eq by lanes.
  rewrite !(fun x H => proj1 (shr2_vec x H)) by lanes.
  rewrite !(fun x H => proj1 (rshr2_vec x H)) by lanes.
  split; [reflexivity|].
  cbn [fst snd]. unfold vcombine_u8.
  repeat constructor; apply Forall_app; split;
    first [ apply shr2_vec | apply rshr2_vec ]; lanes.
Qed.

Lemma h2v2_pixel_byte w far near j :
  forallb is_u8 far = true -> forallb is_u8 near = true ->
  w <= len far -> w <= len near -> 0 <= j < 2 * w ->
  0 <= h2v2_scalar_pixel w far near j <= 255.
Proof.
  intros Hf Hn Lf Ln Hj.
  destruct (scalar_pixel_cases w j Hj)
    as (c0 & c1 & bias & H0 & H1 & Hb & ->).
  pose proof (colsum_range far near c0 Hf Hn ltac:(lia) ltac:(lia)).
  pose proof (colsum_range far near c1 Hf Hn ltac:(lia) ltac:(lia)).
  zdiv.
Qed.

(** C10. On 8-bit samples every value produced by a right shift in either
    kernel is at most 255, so the narrowing to 8 bits changes nothing and
    every output pixel lies in [0, 255]: [h2v2_blend] and [h1v2_blend]
    return the shifted exact sums without narrowing, every lane they
    return is at most 255, and every logical pixel of the rows a valid
    call of either kernel produces lies in [0, 255]. *)
Theorem shifted_values_fit_8_bits
  (s0r0 s0r1 s0r2 s1r0 s1r1 s1r2 r0 r1 r2 : list Z)
  max w input output i j max' w' input' output' i' c :
  forallb is_u8 s0r0 = true -> forallb is_u8 s0r1 = true ->
  forallb is_u8 s0r2 = true -> forallb is_u8 s1r0 = true ->
  forallb is_u8 s1r1 = true -> forallb is_u8 s1r2 = true ->
  forallb is_u8 r0 = true -> forallb is_u8 r1 = true ->
  forallb is_u8 r2 = true ->
  valid_h2v2 max w input output = true ->
  0 <= 2 * i < max -> 0 <= j < 2 * w ->
  valid_h1v2 max' w' input' output' = true ->
  0 <= 2 * i' < max' -> 0 <= c < w' ->
  let out2 := h2v2_blend s0r0 s0r1 s0r2 s1r0 s1r1 s1r2 in
  let out1 := h1v2_blend r0 r1 r2 in
  out2 = h2v2_narrow exact_shr exact_rshr
           (h2v2_sums exact_mla exact_mla exact_add
                      s0r0 s0r1 s0r2 s1r0 s1r1 s1r2) /\
  out1 = h1v2_narrow exact_shr exact_rshr
           (h1v2_sums exact_mla exact_add r0 r1 r2) /\
  all_lanes (fun x => 0 <= x <= 255)
            [fst (fst out2); snd (fst out2); fst (snd out2); snd (snd out2)]
  /\
  all_lanes (fun x => 0 <= x <= 255) [fst out1; snd out1] /\
  row_pair (jsimd_h2v2_fancy_upsample_neon max w input output) input i
    (fun above cur below top bot =>
       exists p q, load top j = Some p /\ load bot j = Some q /\
                   0 <= p <= 255 /\ 0 <= q <= 255) /\
  row_pair (jsimd_h1v2_fancy_upsample_neon max' w' input' output') input' i'
    (fun above cur below top bot =>
       exists p q, load top c = Some p /\ load bot c = Some q /\
                   0 <= p <= 255 /\ 0 <= q <= 255).
Proof.
  intros B00%bytes_Forall B01%bytes_Forall B02%bytes_Forall
         B10%bytes_Forall B11%bytes_Forall B12%bytes_Forall
         B0%bytes_Forall B1%bytes_Forall B2%bytes_Forall
         Hv Hi Hj Hv' Hi' Hc.
  cbv zeta.
  destruct (h2v2_blend_exact s0r0 s0r1 s0r2 s1r0 s1r1 s1r2
              B00 B01 B02 B10 B11 B12) as [E2 L2].
  destruct (h1v2_blend_exact r0 r1 r2 B0 B1 B2) as [E1 L1].
  split; [exact E2|]. split; [exact E1|].
  split; [exact L2|]. split; [exact L1|]. split.
  - eapply row_pair_mono; [|apply (h2v2_rows _ _ _ _ _ Hv Hi)].
    intros above cur below top bot (Ga & Gc & Gb & Lt & Lb & R).
    apply good_in_h2v2_elim in Ga as (_ & Ca & Ba).
    apply good_in_h2v2_elim in Gc as (_ & Cc & Bc).
    apply good_in_h2v2_elim in Gb as (_ & Cb & Bb).
    pose proof (round_up16_ge w) as Hr.
    destruct (R j Hj) as [Rt Rb].
    exists (h2v2_scalar_pixel w above cur j),
           (h2v2_scalar_pixel w below cur j).
    split; [apply load_of_rd; [lia | exact Rt]|].
    split; [apply load_of_rd; [lia | exact Rb]|].
    split; apply h2v2_pixel_byte; trivial; lia.
  - eapply row_pair_mono; [|apply (h1v2_rows _ _ _ _ _ Hv' Hi')].
    intros above cur below top bot (Ga & Gc & Gb & Lt & Lb & R).
    apply good_in_h1v2_elim in Ga as (Ca & Ba).
    apply good_in_h1v2_elim in Gc as (Cc & Bc).
    apply good_in_h1v2_elim in Gb as (Cb & Bb).
    pose proof (round_up16_ge w') as Hr.
    destruct (R c Hc) as [Rt Rb].
    exists (h1v2_top above cur c), (h1v2_bottom below cur c).
    split; [apply load_of_rd; [lia | exact Rt]|].
    split; [apply load_of_rd; [lia | exact Rb]|].
    pose proof (colsum_range above cur c Ba Bc ltac:(lia) ltac:(lia)).
    pose proof (colsum_range below cur c Bb Bc ltac:(lia) ltac:(lia)).
    unfold h1v2_top, h1v2_bottom. rewrite !shiftr2. split; zdiv.
Qed.

Lemma shifted_values_fit_8_bits_witness :
  let out2 := h2v2_blend (repeat 255 16) (repeat 255 16) (repeat 0 16)
                         (repeat 255 16) (repeat 255 16) (repeat 7 16) in
  let out1 := h1v2_blend (repeat 255 16) (repeat 255 16) (repeat 0 16) in
  out2 = h2v2_narrow exact_shr exact_rshr
           (h2v2_sums exact_mla exact_mla exact_add
                      (repeat 255 16) (repeat 255 16) (repeat 0 16)
                      (repeat 255 16) (repeat 255 16) (repeat 7 16)) /\
  out1 = h1v2_narrow exact_shr exact_rshr
           (h1v2_sums exact_mla exact_add
                      (repeat 255 16) (repeat 255 16) (repeat 0 16)) /\
  all_lanes (fun x => 0 <= x <= 255)
            [fst (fst out2); snd (fst out2); fst (snd out2); snd (snd out2)]
  /\
  all_lanes (fun x => 0 <= x <= 255) [fst out1; snd out1] /\
  row_pair (jsimd_h2v2_fancy_upsample_neon 2 3 ex_input ex_output)
    ex_input 0
    (fun above cur below top bot =>
       exists p q, load top 5 = Some p /\ load bot 5 = Some q /\
                   0 <= p <= 255 /\ 0 <= q <= 255) /\
  row_pair (jsimd_h1v2_fancy_upsample_neon 2 3 ex_input ex_output)
    ex_input 0
    (fun above cur below top bot =>
       exists p q, load top 2 = Some p /\ load bot 2 = Some q /\
                   0 <= p <= 255 /\ 0 <= q <= 255).
Proof.
  apply (shifted_values_fit_8_bits
           (repeat 255 16) (repeat 255 16) (repeat 0 16)
           (repeat 255 16) (repeat 255 16) (repeat 7 16)
           (repeat 255 16) (repeat 255 16) (repeat 0 16)
           2 3 ex_input ex_output 0 5 2 3 ex_input ex_output 0 2);
    solve [reflexivity | lia].
Defined.

(** * Exchanging the rows above and below *)

(** C9. The h2v2 kernel is symmetric in its vertical context.  Take two
    valid calls whose input tables hold, around input row [i], the same
    current row and the rows above and below exchanged; the output
    buffers of the two calls are unrelated.  Then the bottom row the first
    call produces for row [i] equals, on all [2w] logical columns, the top
    row the second call produces, and the top row of the first equals the
    bottom row of the second. *)
Theorem h2v2_vertical_symmetry max w input output input' output' i :
  valid_h2v2 max w input output = true ->
  valid_h2v2 max w input' output' = true ->
  0 <= 2 * i < max ->
  row_get input' (i - 1) = row_get input (i + 1) ->
  row_get input' i = row_get input i ->
  row_get input' (i + 1) = row_get input (i - 1) ->
  row_pair (jsimd_h2v2_fancy_upsample_neon max w input output) input i
    (fun above cur below top bot =>
       row_pair (jsimd_h2v2_fancy_upsample_neon max w input' output')
         input' i
         (fun above' cur' below' top' bot' =>
            above' = below /\ cur' = cur /\ below' = above /\
            firstn (Z.to_nat (2 * w)) bot = firstn (Z.to_nat (2 * w)) top' /\
            firstn (Z.to_nat (2 * w)) top
            = firstn (Z.to_nat (2 * w)) bot')).
Proof.
  intros Hv Hv' Hi Ha Hc Hb.
  destruct (h2v2_rows _ _ _ _ _ Hv Hi)
    as (out1 & above & cur & below & top & bot &
        E & Ea & Ec & Eb & Et & Ebt & (_ & _ & _ & Lt & Lb & R)).
  destruct (h2v2_rows _ _ _ _ _ Hv' Hi)
    as (out2 & above' & cur' & below' & top' & bot' &
        E' & Ea' & Ec' & Eb' & Et' & Ebt' & (_ & _ & _ & Lt' & Lb' & R')).
  assert (above' = below) as -> by congruence.
  assert (cur' = cur) as -> by congruence.
  assert (below' = above) as -> by congruence.
  apply valid_h2v2_width in Hv.
  exists out1, above, cur, below, top, bot.
  do 6 (split; [assumption|]).
  exists out2, below, cur, above, top', bot'.
  do 6 (split; [assumption|]).
  do 3 (split; [reflexivity|]).
  split.
  - rewrite (firstn_eq_map bot (h2v2_scalar_pixel w below cur)),
            (firstn_eq_map top' (h2v2_scalar_pixel w below cur));
      try lia; trivial; intros k Hk.
    + now destruct (R' k Hk).
    + now destruct (R k Hk).
  - rewrite (firstn_eq_map top (h2v2_scalar_pixel w above cur)),
            (firstn_eq_map bot' (h2v2_scalar_pixel w above cur));
      try lia; trivial; intros k Hk.
    + now destruct (R' k Hk).
    + now destruct (R k Hk).
Qed.

Lemma h2v2_vertical_symmetry_witness :
  row_pair (jsimd_h2v2_fancy_upsample_neon 2 3 ex_input ex_output)
    ex_input 0
    (fun above cur below top bot =>
       row_pair (jsimd_h2v2_fancy_upsample_neon 2 3 ex_input_exchanged
                                                ex_output_used)
         ex_input_exchanged 0
         (fun above' cur' below' top' bot' =>
            above' = below /\ cur' = cur /\ below' = above /\
            firstn (Z.to_nat (2 * 3)) bot = firstn (Z.to_nat (2 * 3)) top' /\
            firstn (Z.to_nat (2 * 3)) top
            = firstn (Z.to_nat (2 * 3)) bot')).
Proof.
  apply (h2v2_vertical_symmetry 2 3 ex_input ex_output
                                ex_input_exchanged ex_output_used 0);
    solve [reflexivity | lia].
Defined.
